(** * products-api: the per-client rate limiter

    A shallow embedding of package [ratelimiter] (the limiter, its two
    maintenance loops, the no-op variant) and of [api.NewRateLimiter],
    followed by the properties the specification states about them.

    Conventions of the embedding
    - Go's [int] is the 64-bit two's-complement integer of the usual
      targets: a [Z] kept in range by [GoInt.wrap].
    - [time.Duration] is an [int64] count of nanoseconds; a [time.Time]
      is an instant on the clock's time line, in nanoseconds.
    - The activity map is a [gmap string ClientActivity].
    - Every operation of the limiter runs under the limiter's lock, so an
      execution is a sequence of atomic steps: [Allow] calls and ticks of
      the two loops. *)

From Stdlib Require Import ZArith Lia Ascii String.
From stdpp Require Import gmap strings list fin_maps sorting.

Local Open Scope Z_scope.

(** ** Go's [int] *)

Module GoInt.

Definition bits : Z := 64.
Definition min_int : Z := - 2 ^ (bits - 1).
Definition max_int : Z := 2 ^ (bits - 1) - 1.

(** Two's-complement reduction of a mathematical integer. *)
Definition wrap (z : Z) : Z := (z - min_int) mod 2 ^ bits + min_int.

(** [x + y] on [int]: overflow wraps around, it does not panic. *)
Definition add (x y : Z) : Z := wrap (x + y).

Definition in_range (z : Z) : Prop := min_int <= z <= max_int.

(** [x - y], [x * y] and [x / y] on [int]; the quotient truncates
    towards zero. *)
Definition sub (x y : Z) : Z := wrap (x - y).
Definition mul (x y : Z) : Z := wrap (x * y).
Definition quot (x y : Z) : Z := wrap (Z.quot x y).

End GoInt.

(** ** Package [time]: durations, instants and their difference *)

Module time.

Definition Duration := Z.
Definition Time := Z.

Definition Nanosecond : Duration := 1.
Definition Microsecond : Duration := 1000 * Nanosecond.
Definition Millisecond : Duration := 1000 * Microsecond.
Definition Second : Duration := 1000 * Millisecond.
Definition Minute : Duration := 60 * Second.

Definition minDuration : Duration := - 2 ^ 63.
Definition maxDuration : Duration := 2 ^ 63 - 1.

(** [t.Sub(u)]: the duration [t - u], or the largest (smallest)
    duration when the difference does not fit one. *)
Definition Sub (t u : Time) : Duration :=
  if maxDuration <? t - u then maxDuration
  else if t - u <? minDuration then minDuration
  else t - u.

End time.

(** ** The pattern [patIP]

  The pattern of [source], matched the way Go's [regexp] does: it has
  no flags, so the dot is any character but a line feed and the dollar
  is the end of the text; the star is greedy and gives back one
  character at a time. *)

Module patIP.

Definition source : string := "^(.*):[0-9]{1,5}$".

Definition colon : ascii := ":"%char.
Definition line_feed : ascii := ascii_of_nat 10.

(** the dot *)
Definition dot (c : ascii) : bool := negb (Ascii.eqb c line_feed).

(** one decimal digit, the class 0-9 *)
Definition digit (c : ascii) : bool :=
  ((48 <=? nat_of_ascii c) && (nat_of_ascii c <=? 57))%nat.

(** at most [n] digits, then the end of the text *)
Fixpoint digits_upto (n : nat) (s : string) {struct s} : bool :=
  match s with
  | EmptyString => true
  | String c s' =>
      match n with
      | O => false
      | S n' => digit c && digits_upto n' s'
      end
  end.

(** one to five digits, then the end of the text *)
Definition port (s : string) : bool :=
  match s with
  | EmptyString => false
  | String c s' => digit c && digits_upto 4 s'
  end.

(** a colon, one to five digits, then the end of the text *)
Definition colon_port (s : string) : bool :=
  match s with
  | EmptyString => false
  | String c s' => Ascii.eqb c colon && port s'
  end.

(** The whole pattern from the start of [s]: the text of group 1 when
    it matches.  The star first tries to take one more character and
    only then to stop where it is. *)
Fixpoint group1 (s : string) : option string :=
  match s with
  | EmptyString => None
  | String c s' =>
      match (if dot c then group1 s' else None) with
      | Some g => Some (String c g)
      | None => if colon_port s then Some EmptyString else None
      end
  end.

Definition MatchString (s : string) : bool :=
  match group1 s with Some _ => true | None => false end.

(** [FindStringSubmatch(s)[1]]; the source only indexes the result
    after [MatchString] has said yes, [None] is the nil slice. *)
Definition FindStringSubmatch1 (s : string) : option string := group1 s.

End patIP.

(** ** Package [ratelimiter] *)

Module ratelimiter.

Import time.

(** The one field of [http.Request] the limiter reads. *)
Record Request := { RemoteAddr : string }.

(** [ClientActivity]: the number of requests and the last seen time of
    a client. *)
Record ClientActivity := {
  requestCount : Z;
  lastSeen : Time
}.

Record Config := {
  Limit : Z;
  LimitInterval : Duration;
  ClientTimeout : Duration
}.

(** [RateLimiter]: the lock and the clock are not state of their own;
    the lock makes each operation below one step and the clock's
    reading is an argument of the steps that read it. *)
Record RateLimiter := {
  limit : Z;
  activity : gmap string ClientActivity
}.

(** errors.go: three values made by three calls of [errors.New]. *)
Inductive error :=
| ErrInvalidLimit
| ErrInvalidLimitInterval
| ErrInvalidClientTimeout.

Definition Error (e : error) : string :=
  match e with
  | ErrInvalidLimit => "rate limit must be greater than zero"
  | ErrInvalidLimitInterval => "limit interval must be at least one second"
  | ErrInvalidClientTimeout => "client timeout must be greater than limit interval"
  end.

(** What [New] leaves behind when it succeeds: the limiter and the two
    loops it started, each with the period of its ticker. *)
Record Running := {
  limiter : RateLimiter;
  limitResetEvery : Duration;
  clientCleanupEvery : Duration
}.

(** [New(ctx, cfg)]: the pair (limiter, error) the function returns. *)
Definition New (cfg : Config) : option Running * option error :=
  if Limit cfg <=? 0 then (None, Some ErrInvalidLimit)
  else if LimitInterval cfg <? Second then (None, Some ErrInvalidLimitInterval)
  else if ClientTimeout cfg <=? LimitInterval cfg then (None, Some ErrInvalidClientTimeout)
  else
    (Some {| limiter := {| limit := Limit cfg; activity := ∅ |};
             limitResetEvery := LimitInterval cfg;
             clientCleanupEvery := ClientTimeout cfg |},
     None).

(** The first lines of [Allow]: the client's identity. *)
Definition clientID (rq : Request) : string :=
  if patIP.MatchString (RemoteAddr rq) then
    match patIP.FindStringSubmatch1 (RemoteAddr rq) with
    | Some g => g
    | None => EmptyString
    end
  else EmptyString.

(** The zero [time.Time], the [lastSeen] of a record made by a
    composite literal that names only [requestCount]. *)
Definition zeroTime : Time := 0.

(** [rl.Allow(rq)] when the clock reads [now]: the result and the
    limiter afterwards. *)
Definition Allow (now : Time) (rq : Request) (rl : RateLimiter)
  : bool * RateLimiter :=
  let id := clientID rq in
  let activity0 :=
    match activity rl !! id with
    | Some a => a
    | None => {| requestCount := 0; lastSeen := zeroTime |}
    end in
  let activity1 :=
    {| requestCount := GoInt.add (requestCount activity0) 1;
       lastSeen := now |} in
  (requestCount activity1 <=? limit rl,
   {| limit := limit rl; activity := <[id := activity1]> (activity rl) |}).

Definition NumberOfClients (rl : RateLimiter) : Z :=
  Z.of_nat (size (activity rl)).

(** [for client, activity := range m { body }] where the body may
    overwrite or delete the entry it is at: the keys of [m] come in
    some order [keys], and an entry deleted before it is reached is not
    produced. *)
Definition rangeOver
    (body : string → ClientActivity → gmap string ClientActivity → gmap string ClientActivity)
    (keys : list string) (m : gmap string ClientActivity)
  : gmap string ClientActivity :=
  foldl (λ m' client,
           match m' !! client with
           | Some a => body client a m'
           | None => m'
           end) m keys.

(** The body of the loop of [startLimitReset]. *)
Definition resetBody (client : string) (a : ClientActivity)
    (m : gmap string ClientActivity) : gmap string ClientActivity :=
  <[client := {| requestCount := 0; lastSeen := lastSeen a |}]> m.

(** The body of the loop of [startClientCleanup]. *)
Definition cleanupBody (dur : Duration) (now : Time)
    (client : string) (a : ClientActivity)
    (m : gmap string ClientActivity) : gmap string ClientActivity :=
  if dur <=? Sub now (lastSeen a) then delete client m else m.

(** One tick of the reset loop, the map ranged over in the order
    [keys]. *)
Definition limitResetOver (keys : list string) (rl : RateLimiter) : RateLimiter :=
  {| limit := limit rl;
     activity := rangeOver resetBody keys (activity rl) |}.

(** One tick, read at [now], of the cleanup loop whose ticker has
    period [dur]. *)
Definition clientCleanupOver (dur : Duration) (now : Time)
    (keys : list string) (rl : RateLimiter) : RateLimiter :=
  {| limit := limit rl;
     activity := rangeOver (cleanupBody dur now) keys (activity rl) |}.

(** An order of the keys of a map: each key once. *)
Definition keyOrder (keys : list string) (m : gmap string ClientActivity) : Prop :=
  keys ≡ₚ (map_to_list m).*1.

(** The ticks with the keys in the order in which [map_to_list] lists
    them; [limitReset_any_order] and [clientCleanup_any_order] show
    that the order makes no difference. *)
Definition limitResetTick (rl : RateLimiter) : RateLimiter :=
  limitResetOver (map_to_list (activity rl)).*1 rl.

Definition clientCleanupTick (dur : Duration) (now : Time) (rl : RateLimiter) : RateLimiter :=
  clientCleanupOver dur now (map_to_list (activity rl)).*1 rl.

(** *** Executions

    What happens to a running limiter while its context is not
    cancelled, one step at a time: a call of [Allow], or one of the two
    loops receiving a tick and running its body under the lock.  A tick
    of the cleanup loop carries the time the ticker sent. *)
Inductive event :=
| EvAllow (now : Time) (rq : Request)
| EvLimitReset
| EvClientCleanup (now : Time).

(** One step: the running limiter afterwards and, for [Allow], what
    the call returned. *)
Definition step (r : Running) (e : event) : Running * option bool :=
  match e with
  | EvAllow now rq =>
      let '(ok, rl) := Allow now rq (limiter r) in
      ({| limiter := rl;
          limitResetEvery := limitResetEvery r;
          clientCleanupEvery := clientCleanupEvery r |}, Some ok)
  | EvLimitReset =>
      ({| limiter := limitResetTick (limiter r);
          limitResetEvery := limitResetEvery r;
          clientCleanupEvery := clientCleanupEvery r |}, None)
  | EvClientCleanup now =>
      ({| limiter := clientCleanupTick (clientCleanupEvery r) now (limiter r);
          limitResetEvery := limitResetEvery r;
          clientCleanupEvery := clientCleanupEvery r |}, None)
  end.

(** A run: the final state and the results of the [Allow] calls, in
    the order of the calls. *)
Fixpoint run (r : Running) (es : list event) : Running * list bool :=
  match es with
  | [] => (r, [])
  | e :: es' =>
      let '(r1, o) := step r e in
      let '(r2, os) := run r1 es' in
      (r2, match o with Some b => b :: os | None => os end)
  end.

(** *** The no-op limiter (noopLimiter.go) *)

Inductive NoopLimiter := mkNoopLimiter.

Definition NewNoopLimiter : NoopLimiter := mkNoopLimiter.

Definition NoopAllow (n : NoopLimiter) (rq : Request) : bool * NoopLimiter :=
  (true, n).

End ratelimiter.

(** ** Package [api]: the choice of the limiter *)

Module api.

Import ratelimiter.

(** The interface [RateLimiter] of package [api] and the two types
    that [NewRateLimiter] returns behind it. *)
Inductive RateLimiter :=
| Noop (n : NoopLimiter)
| Limiting (r : Running).

(** [NewRateLimiter(ctx, limit)].  The last case of the match is the
    nil limiter with a nil error; [New] never returns that pair. *)
Definition NewRateLimiter (limit : Z) : option RateLimiter * option error :=
  if limit <=? 0 then (Some (Noop NewNoopLimiter), None)
  else
    let cfg := {| Limit := limit;
                  LimitInterval := time.Second;
                  ClientTimeout := time.Minute |} in
    match New cfg with
    | (_, Some err) => (None, Some err)
    | (Some l, None) => (Some (Limiting l), None)
    | (None, None) => (None, None)
    end.

End api.

(** ** Package [models] *)

Module models.

(** A [float64] is kept as the 64 bits of its IEEE 754 form, the value
    of [math.Float64bits]; the store copies prices and does nothing
    else with them. *)
Definition float64 := Z.

Module Product.
Record t := {
  ID : Z;
  Name : string;
  Description : string;
  Price : float64;
  Category : string;
  InStock : bool;
  CreatedAt : time.Time;
  UpdatedAt : time.Time
}.
End Product.

Module CreateProductRequest.
Record t := {
  Name : string;
  Description : string;
  Price : float64;
  Category : string;
  InStock : bool
}.
End CreateProductRequest.

(** The fields are pointers: [None] is nil. *)
Module UpdateProductRequest.
Record t := {
  Name : option string;
  Description : option string;
  Price : option float64;
  Category : option string;
  InStock : option bool
}.
End UpdateProductRequest.

Module PaginatedResponse.
Record t := {
  Data : list Product.t;
  Page : Z;
  PageSize : Z;
  Total : Z;
  TotalPages : Z
}.
End PaginatedResponse.

Module ErrorResponse.
Record t := {
  Error : string;
  Message : string
}.
End ErrorResponse.

End models.

(** ** Package [db]: the store of products in memory (memory.go)

    The map holds pointers, and every method hands out a copy of what a
    pointer points to: the map is a [gmap] of product values.  The lock
    makes every method one step; [time.Now()] is an argument of the
    methods that call it. *)

Module db.

Import models.

Record InMemoryDB := {
  products : gmap Z Product.t;
  nextID : Z
}.

(** An error made by [errors.New]: its text. *)
Definition error := string.
Definition errors_New (text : string) : error := text.

(** A function either returns or panics. *)
Inductive outcome (A : Type) :=
| Returns (a : A)
| Panics.
Arguments Returns {A} a.
Arguments Panics {A}.

Definition GetProductByID (id : Z) (db : InMemoryDB)
  : option Product.t * option error :=
  match products db !! id with
  | None => (None, Some (errors_New "product not found"))
  | Some product => (Some product, None)
  end.

(** [db.CreateProduct(req)] when the clock reads [now]: the store
    afterwards and the pair the method returns. *)
Definition CreateProduct (now : time.Time) (req : CreateProductRequest.t)
    (db : InMemoryDB) : InMemoryDB * (option Product.t * option error) :=
  let product :=
    {| Product.ID := nextID db;
       Product.Name := CreateProductRequest.Name req;
       Product.Description := CreateProductRequest.Description req;
       Product.Price := CreateProductRequest.Price req;
       Product.Category := CreateProductRequest.Category req;
       Product.InStock := CreateProductRequest.InStock req;
       Product.CreatedAt := now;
       Product.UpdatedAt := now |} in
  ({| products := <[nextID db := product]> (products db);
      nextID := GoInt.add (nextID db) 1 |},
   (Some product, None)).

(** The assignments of [UpdateProduct], one field each. *)
Definition setName (v : string) (p : Product.t) : Product.t :=
  {| Product.ID := Product.ID p; Product.Name := v;
     Product.Description := Product.Description p; Product.Price := Product.Price p;
     Product.Category := Product.Category p; Product.InStock := Product.InStock p;
     Product.CreatedAt := Product.CreatedAt p; Product.UpdatedAt := Product.UpdatedAt p |}.

Definition setDescription (v : string) (p : Product.t) : Product.t :=
  {| Product.ID := Product.ID p; Product.Name := Product.Name p;
     Product.Description := v; Product.Price := Product.Price p;
     Product.Category := Product.Category p; Product.InStock := Product.InStock p;
     Product.CreatedAt := Product.CreatedAt p; Product.UpdatedAt := Product.UpdatedAt p |}.

Definition setPrice (v : float64) (p : Product.t) : Product.t :=
  {| Product.ID := Product.ID p; Product.Name := Product.Name p;
     Product.Description := Product.Description p; Product.Price := v;
     Product.Category := Product.Category p; Product.InStock := Product.InStock p;
     Product.CreatedAt := Product.CreatedAt p; Product.UpdatedAt := Product.UpdatedAt p |}.

Definition setCategory (v : string) (p : Product.t) : Product.t :=
  {| Product.ID := Product.ID p; Product.Name := Product.Name p;
     Product.Description := Product.Description p; Product.Price := Product.Price p;
     Product.Category := v; Product.InStock := Product.InStock p;
     Product.CreatedAt := Product.CreatedAt p; Product.UpdatedAt := Product.UpdatedAt p |}.

Definition setInStock (v : bool) (p : Product.t) : Product.t :=
  {| Product.ID := Product.ID p; Product.Name := Product.Name p;
     Product.Description := Product.Description p; Product.Price := Product.Price p;
     Product.Category := Product.Category p; Product.InStock := v;
     Product.CreatedAt := Product.CreatedAt p; Product.UpdatedAt := Product.UpdatedAt p |}.

Definition setUpdatedAt (v : time.Time) (p : Product.t) : Product.t :=
  {| Product.ID := Product.ID p; Product.Name := Product.Name p;
     Product.Description := Product.Description p; Product.Price := Product.Price p;
     Product.Category := Product.Category p; Product.InStock := Product.InStock p;
     Product.CreatedAt := Product.CreatedAt p; Product.UpdatedAt := v |}.

(** [if field != nil { assign }] *)
Definition ifProvided {V : Type} (field : option V)
    (assign : V → Product.t → Product.t) (p : Product.t) : Product.t :=
  match field with
  | Some v => assign v p
  | None => p
  end.

(** [db.UpdateProduct(id, req)] when the clock reads [now]. *)
Definition UpdateProduct (now : time.Time) (id : Z) (req : UpdateProductRequest.t)
    (db : InMemoryDB) : InMemoryDB * (option Product.t * option error) :=
  match products db !! id with
  | None => (db, (None, Some (errors_New "product not found")))
  | Some product =>
      let product := ifProvided (UpdateProductRequest.Name req) setName product in
      let product := ifProvided (UpdateProductRequest.Description req) setDescription product in
      let product := ifProvided (UpdateProductRequest.Price req) setPrice product in
      let product := ifProvided (UpdateProductRequest.Category req) setCategory product in
      let product := ifProvided (UpdateProductRequest.InStock req) setInStock product in
      let product := setUpdatedAt now product in
      ({| products := <[id := product]> (products db); nextID := nextID db |},
       (Some product, None))
  end.

Definition DeleteProduct (id : Z) (db : InMemoryDB) : InMemoryDB * option error :=
  match products db !! id with
  | None => (db, Some (errors_New "product not found"))
  | Some _ => ({| products := delete id (products db); nextID := nextID db |}, None)
  end.

(** The order [sort.Slice] is asked for: by [ID]. *)
Definition byID (p q : Product.t) : Prop := Product.ID p <= Product.ID q.

#[global] Instance byID_dec p q : Decision (byID p q).
Proof. unfold byID. apply _. Defined.

(** [sort.Slice(products, less)] with [less] comparing the IDs: the
    slice in an order in which no product has a smaller ID than one
    before it.  For products with different IDs, the keys of the map,
    there is one such order ([sorted_by_ID_unique]). *)
Definition sortByID (l : list Product.t) : list Product.t := merge_sort byID l.

(** [s[lo:hi]] of a slice with the elements [s] and a capacity of as
    many: it panics unless [0 <= lo <= hi <= cap(s)]. *)
Definition slice (s : list Product.t) (lo hi : Z) : outcome (list Product.t) :=
  if (0 <=? lo) && (lo <=? hi) && (hi <=? Z.of_nat (length s))
  then Returns (take (Z.to_nat (hi - lo)) (drop (Z.to_nat lo) s))
  else Panics.

(** [db.GetProducts(page, pageSize)]: the products of the page, the
    number of all products and a nil error, or a panic of the slice
    expression. *)
Definition GetProducts (page pageSize : Z) (db : InMemoryDB)
  : outcome (list Product.t * Z * option error) :=
  let page := if page <? 1 then 1 else page in
  let pageSize := if pageSize <? 1 then 10 else pageSize in
  let products := sortByID (map_to_list (products db)).*2 in
  let total := Z.of_nat (length products) in
  let start := GoInt.mul (GoInt.sub page 1) pageSize in
  let end_ := GoInt.add start pageSize in
  if total <=? start then Returns ([], total, None)
  else
    let end_ := if total <? end_ then total else end_ in
    match slice products start end_ with
    | Returns page_ => Returns (page_, total, None)
    | Panics => Panics
    end.

(** The sample products of [NewInMemoryDB]; the prices are 1299.99,
    29.99, 12.50, 199.99 and 899.99. *)
Definition sampleProducts : list CreateProductRequest.t :=
  [ {| CreateProductRequest.Name := "Laptop";
       CreateProductRequest.Description := "High-performance laptop for professional use";
       CreateProductRequest.Price := 0x40944ff5c28f5c29;
       CreateProductRequest.Category := "Electronics";
       CreateProductRequest.InStock := true |};
    {| CreateProductRequest.Name := "Wireless Mouse";
       CreateProductRequest.Description := "Ergonomic wireless mouse with long battery life";
       CreateProductRequest.Price := 0x403dfd70a3d70a3d;
       CreateProductRequest.Category := "Electronics";
       CreateProductRequest.InStock := true |};
    {| CreateProductRequest.Name := "Coffee Mug";
       CreateProductRequest.Description := "Ceramic coffee mug with company logo";
       CreateProductRequest.Price := 0x4029000000000000;
       CreateProductRequest.Category := "Office Supplies";
       CreateProductRequest.InStock := false |};
    {| CreateProductRequest.Name := "Desk Chair";
       CreateProductRequest.Description := "Comfortable ergonomic office chair";
       CreateProductRequest.Price := 0x4068ffae147ae148;
       CreateProductRequest.Category := "Furniture";
       CreateProductRequest.InStock := true |};
    {| CreateProductRequest.Name := "Smartphone";
       CreateProductRequest.Description := "Latest smartphone with advanced camera";
       CreateProductRequest.Price := 0x408c1feb851eb852;
       CreateProductRequest.Category := "Electronics";
       CreateProductRequest.InStock := true |} ].

(** [NewInMemoryDB()]; [clock i] is what the clock reads in call [i] of
    [CreateProduct], from 0. *)
Definition NewInMemoryDB (clock : nat → time.Time) : InMemoryDB :=
  (foldl (λ '(db, i) req, ((CreateProduct (clock i) req db).1, S i))
         ({| products := ∅; nextID := 1 |}, O) sampleProducts).1.

End db.

(** ** Package [api]: the handler of [GET /api/v1/products]

    The version of the handler that calls [GetProducts] of the store
    above with a page and a page size.  [pageArg] and [sizeArg] are
    what [strconv.Atoi] returned for the two query parameters, the
    errors of which the handler drops; the result is the status and the
    value the handler passes to [writeJSONResponse]. *)

Module Handler.

Import models.

Definition StatusOK : Z := 200.
Definition StatusInternalServerError : Z := 500.

Inductive body :=
| Paginated (r : PaginatedResponse.t)
| Failed (r : ErrorResponse.t).

Definition GetProducts (pageArg sizeArg : Z) (store : db.InMemoryDB)
  : db.outcome (Z * body) :=
  let page := if pageArg <? 1 then 1 else pageArg in
  let pageSize := if (sizeArg <? 1) || (100 <? sizeArg) then 10 else sizeArg in
  match db.GetProducts page pageSize store with
  | db.Panics => db.Panics
  | db.Returns (_, _, Some err) =>
      db.Returns (StatusInternalServerError,
                  Failed {| ErrorResponse.Error := "Failed to retrieve products";
                            ErrorResponse.Message := err |})
  | db.Returns (products, total, None) =>
      let totalPages :=
        GoInt.quot (GoInt.sub (GoInt.add total pageSize) 1) pageSize in
      db.Returns (StatusOK,
                  Paginated {| PaginatedResponse.Data := products;
                               PaginatedResponse.Page := page;
                               PaginatedResponse.PageSize := pageSize;
                               PaginatedResponse.Total := total;
                               PaginatedResponse.TotalPages := totalPages |})
  end.

End Handler.

(** * Vocabulary of the statements

    Notions the properties are stated with; none of them is part of the
    program. *)

Import ratelimiter.

Section Vocabulary.

Import patIP.

(** No line feed in the text. *)
Fixpoint one_line (s : string) : bool :=
  match s with
  | EmptyString => true
  | String c s' => dot c && one_line s'
  end.

Fixpoint all_digits (s : string) : bool :=
  match s with
  | EmptyString => true
  | String c s' => digit c && all_digits s'
  end.

(** One to five decimal digits. *)
Definition port_text (p : string) : Prop :=
  (1 <= String.length p <= 5)%nat ∧ all_digits p = true.

(** [s] is [g], a colon and a port. *)
Definition addr_port (s g : string) : Prop :=
  ∃ p, s = g +:+ String colon p ∧ port_text p.

(** The count [Allow] starts from: the stored one, or 0 of the record
    it makes up when the client has none. *)
Definition countOf (id : string) (rl : RateLimiter) : Z :=
  match activity rl !! id with
  | Some a => requestCount a
  | None => 0
  end.

Definition zeroCount (a : ClientActivity) : ClientActivity :=
  {| requestCount := 0; lastSeen := lastSeen a |}.

(** What the cleanup loop decides for one record. *)
Definition expired (dur : time.Duration) (now : time.Time) (a : ClientActivity) : bool :=
  dur <=? time.Sub now (lastSeen a).

Definition keepFresh (dur : time.Duration) (now : time.Time) (a : ClientActivity)
  : option ClientActivity :=
  if expired dur now a then None else Some a.

(** The number of [Allow] calls of client [id] among the events. *)
Fixpoint callsBy (id : string) (es : list event) : nat :=
  match es with
  | [] => O
  | EvAllow _ rq :: es' =>
      if decide (clientID rq = id) then S (callsBy id es') else callsBy id es'
  | _ :: es' => callsBy id es'
  end.

(** What [New] checked, as it shows in the running limiter. *)
Definition validated (r : Running) : Prop :=
  0 < limit (limiter r) ∧
  time.Second <= limitResetEvery r ∧
  limitResetEvery r < clientCleanupEvery r.

(** Every stored count is 0: the store [New] makes and the store a tick
    of the reset loop leaves. *)
Definition allZero (rl : RateLimiter) : Prop :=
  ∀ id a, activity rl !! id = Some a → requestCount a = 0.

(** [r] is a limiter made by [New cfg] at the start of an interval:
    just made, or just after a tick of its reset loop. *)
Definition intervalStart (cfg : Config) (r : Running) : Prop :=
  ∃ r0 past, New cfg = (Some r0, None) ∧
    (r = r0 ∨ r = (run r0 (past ++ [EvLimitReset])).1).

(** An event of the interval that starts at [start] and lasts [len]: no
    tick of the reset loop; [Allow] reads the clock after the interval
    began; a tick of the cleanup loop is of a time before the interval
    ends. *)
Definition withinInterval (start : time.Time) (len : time.Duration) (e : event) : Prop :=
  match e with
  | EvAllow now _ => start <= now
  | EvLimitReset => False
  | EvClientCleanup now => now <= start + len
  end.

(** Every record that counts a request was last seen in the interval. *)
Definition seenSince (start : time.Time) (rl : RateLimiter) : Prop :=
  ∀ id a, activity rl !! id = Some a → requestCount a ≠ 0 → start <= lastSeen a.

(** Calls of the no-op limiter, one after the other. *)
Fixpoint noopRun (n : NoopLimiter) (rqs : list Request) : NoopLimiter * list bool :=
  match rqs with
  | [] => (n, [])
  | rq :: rqs' =>
      let '(ok, n1) := NoopAllow n rq in
      let '(n2, oks) := noopRun n1 rqs' in
      (n2, ok :: oks)
  end.

(** The number of calls of client [id] that returned true in the run of
    [es] from [r]. *)
Fixpoint allowedBy (id : string) (r : Running) (es : list event) : nat :=
  match es with
  | [] => O
  | e :: es' =>
      (match e, (step r e).2 with
       | EvAllow _ rq, Some true => if decide (clientID rq = id) then 1 else 0
       | _, _ => 0
       end + allowedBy id (step r e).1 es')%nat
  end.

(** The identities of the clients that call [Allow] among the events. *)
Fixpoint callers (es : list event) : gset string :=
  match es with
  | [] => ∅
  | EvAllow _ rq :: es' => {[clientID rq]} ∪ callers es'
  | _ :: es' => callers es'
  end.

(** No tick of the cleanup loop among the events. *)
Definition noCleanup (es : list event) : Prop :=
  Forall (λ e, match e with EvClientCleanup _ => False | _ => True end) es.

(** *** The store of products *)

(** Every product is stored under its own ID, the IDs in use are
    positive and below [nextID], and [nextID] is an [int]: what
    [NewInMemoryDB] sets up and the methods keep. *)
Definition consistent (d : db.InMemoryDB) : Prop :=
  (∀ k p, db.products d !! k = Some p →
     models.Product.ID p = k ∧ 1 <= k < db.nextID d) ∧
  1 <= db.nextID d <= GoInt.max_int.

(** The methods that change the store. *)
Inductive dbOp :=
| OpCreate (now : time.Time) (req : models.CreateProductRequest.t)
| OpUpdate (now : time.Time) (id : Z) (req : models.UpdateProductRequest.t)
| OpDelete (id : Z).

Definition applyOp (d : db.InMemoryDB) (o : dbOp) : db.InMemoryDB :=
  match o with
  | OpCreate now req => (db.CreateProduct now req d).1
  | OpUpdate now id req => (db.UpdateProduct now id req d).1
  | OpDelete id => (db.DeleteProduct id d).1
  end.

Definition applyOps (d : db.InMemoryDB) (os : list dbOp) : db.InMemoryDB :=
  foldl applyOp d os.

(** The IDs of the products the calls of [CreateProduct] among the
    operations return, in the order of the calls. *)
Fixpoint createdIDs (d : db.InMemoryDB) (os : list dbOp) : list Z :=
  match os with
  | [] => []
  | o :: os' =>
      match o with
      | OpCreate now req =>
          match (db.CreateProduct now req d).2.1 with
          | Some p => [models.Product.ID p]
          | None => []
          end
      | _ => []
      end ++ createdIDs (applyOp d o) os'
  end.

Fixpoint creates (os : list dbOp) : nat :=
  match os with
  | [] => O
  | OpCreate _ _ :: os' => S (creates os')
  | _ :: os' => creates os'
  end.

(** All products of the store in the order of their IDs. *)
Definition allProducts (d : db.InMemoryDB) : list models.Product.t :=
  db.sortByID (map_to_list (db.products d)).*2.

(** The page and the page size [GetProducts] works with. *)
Definition pageUsed (page : Z) : Z := if page <? 1 then 1 else page.
Definition pageSizeUsed (pageSize : Z) : Z := if pageSize <? 1 then 10 else pageSize.

(** The products a call of [GetProducts] returned, none for a panic. *)
Definition itemsOf (o : db.outcome (list models.Product.t * Z * option db.error))
  : list models.Product.t :=
  match o with
  | db.Returns (items, _, _) => items
  | db.Panics => []
  end.

End Vocabulary.

(** * Properties *)

(** ** Arithmetic of [int] and of durations *)

Section IntFacts.

Lemma wrap_in_range z : GoInt.in_range z → GoInt.wrap z = z.
Proof.
  unfold GoInt.in_range, GoInt.wrap, GoInt.min_int, GoInt.max_int, GoInt.bits.
  intros H. rewrite Z.mod_small; lia.
Qed.

Lemma wrap_range z : GoInt.in_range (GoInt.wrap z).
Proof.
  unfold GoInt.in_range, GoInt.wrap, GoInt.min_int, GoInt.max_int, GoInt.bits.
  pose proof (Z.mod_pos_bound (z - - 2 ^ (64 - 1)) (2 ^ 64) ltac:(lia)). lia.
Qed.

Lemma add_one_below_max c :
  GoInt.min_int <= c + 1 → c < GoInt.max_int → GoInt.add c 1 = c + 1.
Proof.
  intros Hlo Hhi. unfold GoInt.add. apply wrap_in_range.
  unfold GoInt.in_range. lia.
Qed.

Lemma add_one_at_max : GoInt.add GoInt.max_int 1 = GoInt.min_int.
Proof. reflexivity. Qed.

Lemma add_le_max x y : GoInt.add x y <= GoInt.max_int.
Proof. unfold GoInt.add. apply wrap_range. Qed.

Lemma Sub_exact t u :
  time.minDuration <= t - u <= time.maxDuration → time.Sub t u = t - u.
Proof.
  unfold time.Sub. intros H.
  destruct (Z.ltb_spec time.maxDuration (t - u)); [lia|].
  destruct (Z.ltb_spec (t - u) time.minDuration); [lia|]. done.
Qed.

(** Saturation does not change the comparison the cleanup loop makes. *)
Lemma Sub_ge_iff dur t u :
  time.minDuration < dur <= time.maxDuration →
  dur <= time.Sub t u ↔ dur <= t - u.
Proof.
  unfold time.Sub. intros H.
  destruct (Z.ltb_spec time.maxDuration (t - u)); [lia|].
  destruct (Z.ltb_spec (t - u) time.minDuration); lia.
Qed.

End IntFacts.

(** ** What [patIP] matches *)

Section Pattern.

Import patIP.

Lemma digits_upto_spec n p :
  digits_upto n p = true ↔ (String.length p <= n)%nat ∧ all_digits p = true.
Proof.
  revert n. induction p as [|c p IH]; intros n; simpl.
  - split; [intros _; split; [lia|done] | done].
  - destruct n as [|n].
    + split; [done | intros [? _]; lia].
    + rewrite !andb_true_iff, IH. split; intros; [split; [lia | tauto] | split; [tauto | split; [lia | tauto] ] ].
Qed.

Lemma port_spec p : port p = true ↔ port_text p.
Proof.
  unfold port, port_text. destruct p as [|c p]; simpl.
  - split; [done | intros [? _]; lia].
  - rewrite !andb_true_iff, digits_upto_spec. split; intros; [split; [lia | tauto] | split; [tauto | split; [lia | tauto] ] ].
Qed.

Lemma digit_dot c : digit c = true → dot c = true.
Proof.
  unfold digit, dot. intros H.
  destruct (Ascii.eqb_spec c line_feed) as [->|]; [|done].
  vm_compute in H. done.
Qed.

Lemma digit_not_colon c : digit c = true → Ascii.eqb c colon = false.
Proof.
  unfold digit. intros H.
  destruct (Ascii.eqb_spec c colon) as [->|]; [|done].
  vm_compute in H. done.
Qed.

(** The pattern does not match inside a run of digits: there is no
    colon there. *)
Lemma group1_digits p : all_digits p = true → group1 p = None.
Proof.
  induction p as [|c p IH]; simpl; [done|].
  rewrite andb_true_iff. intros [Hc Hp].
  rewrite (digit_dot _ Hc), (IH Hp), (digit_not_colon _ Hc). done.
Qed.

Lemma group1_sound s g :
  group1 s = Some g → addr_port s g ∧ one_line g = true.
Proof.
  revert g. induction s as [|c s IH]; intros g; simpl; [done|].
  destruct (dot c) eqn:Hdot.
  - destruct (group1 s) as [g'|] eqn:Hg.
    + intros [= <-]. destruct (IH g' eq_refl) as [[p [-> Hp]] Hl].
      split; [exists p; done | simpl; by rewrite Hdot, Hl].
    + destruct (Ascii.eqb_spec c colon) as [->|]; simpl; [|done].
      destruct (port s) eqn:Hp; [|done]. intros [= <-].
      split; [|done]. exists s. split; [done | by apply port_spec].
  - destruct (Ascii.eqb_spec c colon) as [->|]; simpl; [|done].
    destruct (port s) eqn:Hp; [|done]. intros [= <-].
    split; [|done]. exists s. split; [done | by apply port_spec].
Qed.

Lemma group1_complete g p :
  one_line g = true → port_text p → group1 (g +:+ String colon p) = Some g.
Proof.
  intros Hl Hp. induction g as [|c g IH]; simpl.
  - rewrite (group1_digits p) by apply Hp.
    apply port_spec in Hp. rewrite Hp. done.
  - simpl in Hl. apply andb_true_iff in Hl as [Hc Hg].
    rewrite Hc, (IH Hg). done.
Qed.

(** The match and its group, in one statement. *)
Lemma group1_spec s g :
  group1 s = Some g ↔ addr_port s g ∧ one_line g = true.
Proof.
  split; [apply group1_sound|].
  intros [[p [-> Hp]] Hl]. by apply group1_complete.
Qed.

Lemma all_digits_colon g p : all_digits (g +:+ String colon p) = false.
Proof.
  induction g as [|c g IH]; simpl; [done|].
  rewrite IH. apply andb_false_r.
Qed.

(** A text has at most one split into an address and a port: the
    split is at its last colon. *)
Lemma addr_port_unique s g1 g2 : addr_port s g1 → addr_port s g2 → g1 = g2.
Proof.
  intros [p1 [-> [_ H1] ] ] [p2 [E [_ H2] ] ].
  revert g2 E. induction g1 as [|c g1 IH]; intros g2 E.
  - destruct g2 as [|c2 g2]; [done|]. simpl in E. injection E as <- ->.
    by rewrite all_digits_colon in H1.
  - destruct g2 as [|c2 g2]; simpl in E.
    + injection E as -> <-. by rewrite all_digits_colon in H2.
    + injection E as <- E. f_equal. by apply IH.
Qed.

Lemma clientID_match rq g :
  group1 (RemoteAddr rq) = Some g → clientID rq = g.
Proof.
  intros H. unfold clientID, MatchString, FindStringSubmatch1. by rewrite H.
Qed.

Lemma clientID_no_match rq :
  group1 (RemoteAddr rq) = None → clientID rq = EmptyString.
Proof.
  intros H. unfold clientID, MatchString, FindStringSubmatch1. by rewrite H.
Qed.

End Pattern.

(** ** One call of [Allow] *)

Section AllowFacts.

Lemma Allow_limit now rq rl : limit (Allow now rq rl).2 = limit rl.
Proof. done. Qed.

Lemma Allow_lookup_self now rq rl :
  activity (Allow now rq rl).2 !! clientID rq =
    Some {| requestCount := GoInt.add (countOf (clientID rq) rl) 1;
            lastSeen := now |}.
Proof.
  unfold Allow, countOf. simpl. rewrite lookup_insert_eq.
  by destruct (activity rl !! clientID rq).
Qed.

Lemma Allow_lookup_other now rq rl id :
  id ≠ clientID rq → activity (Allow now rq rl).2 !! id = activity rl !! id.
Proof. intros Hne. unfold Allow. simpl. by rewrite lookup_insert_ne. Qed.

Lemma Allow_result now rq rl :
  (Allow now rq rl).1 = (GoInt.add (countOf (clientID rq) rl) 1 <=? limit rl).
Proof.
  unfold Allow, countOf. simpl. by destruct (activity rl !! clientID rq).
Qed.

Lemma Allow_countOf_self now rq rl :
  countOf (clientID rq) (Allow now rq rl).2 = GoInt.add (countOf (clientID rq) rl) 1.
Proof. unfold countOf at 1. by rewrite Allow_lookup_self. Qed.

Lemma Allow_countOf_other now rq rl id :
  id ≠ clientID rq → countOf id (Allow now rq rl).2 = countOf id rl.
Proof. intros Hne. unfold countOf. by rewrite Allow_lookup_other. Qed.

Lemma Allow_dom now rq rl :
  dom (activity (Allow now rq rl).2) = {[clientID rq]} ∪ dom (activity rl).
Proof. unfold Allow. simpl. apply dom_insert_L. Qed.

Lemma Allow_size_tracked now rq rl :
  is_Some (activity rl !! clientID rq) →
  NumberOfClients (Allow now rq rl).2 = NumberOfClients rl.
Proof.
  intros Ha. unfold NumberOfClients, Allow. simpl.
  by rewrite map_size_insert_Some.
Qed.

Lemma Allow_size_new now rq rl :
  activity rl !! clientID rq = None →
  NumberOfClients (Allow now rq rl).2 = NumberOfClients rl + 1.
Proof.
  intros Ha. unfold NumberOfClients, Allow. simpl.
  rewrite map_size_insert_None by done. lia.
Qed.

End AllowFacts.

(** ** The loops over the map *)

Section RangeFacts.

Implicit Types (m : gmap string ClientActivity) (keys : list string).

Lemma rangeOver_cons body key keys m :
  rangeOver body (key :: keys) m =
    rangeOver body keys
      (match m !! key with Some a => body key a m | None => m end).
Proof. done. Qed.

Lemma rangeOver_reset_lookup keys m k :
  rangeOver resetBody keys m !! k =
    if decide (k ∈ keys) then zeroCount <$> m !! k else m !! k.
Proof.
  revert m. induction keys as [|key keys IH]; intros m.
  - rewrite decide_False by apply not_elem_of_nil. done.
  - rewrite rangeOver_cons, IH. clear IH.
    destruct (decide (k = key)) as [->|Hne].
    + rewrite (decide_True (P := key ∈ key :: keys)) by apply list_elem_of_here.
      destruct (m !! key) as [a|] eqn:Ha.
      * unfold resetBody. rewrite lookup_insert_eq. by destruct (decide _).
      * rewrite Ha. by destruct (decide _).
    + assert (Hm : (match m !! key with
                    | Some a => resetBody key a m | None => m end) !! k = m !! k).
      { destruct (m !! key); [|done]. unfold resetBody. by rewrite lookup_insert_ne. }
      rewrite Hm. destruct (decide (k ∈ keys)).
      * rewrite decide_True by by apply list_elem_of_further. done.
      * rewrite decide_False; [done|]. by intros [?|?]%elem_of_cons.
Qed.

Lemma rangeOver_cleanup_lookup dur now keys m k :
  rangeOver (cleanupBody dur now) keys m !! k =
    if decide (k ∈ keys) then m !! k ≫= keepFresh dur now else m !! k.
Proof.
  revert m. induction keys as [|key keys IH]; intros m.
  - rewrite decide_False by apply not_elem_of_nil. done.
  - rewrite rangeOver_cons, IH. clear IH.
    destruct (decide (k = key)) as [->|Hne].
    + rewrite (decide_True (P := key ∈ key :: keys)) by apply list_elem_of_here.
      destruct (m !! key) as [a|] eqn:Ha; simpl.
      * unfold cleanupBody, keepFresh, expired.
        destruct (dur <=? time.Sub now (lastSeen a)) eqn:He.
        -- rewrite lookup_delete_eq. by destruct (decide _).
        -- rewrite Ha. simpl. unfold keepFresh, expired. rewrite He. by destruct (decide _).
      * rewrite Ha. by destruct (decide _).
    + assert (Hm : (match m !! key with
                    | Some a => cleanupBody dur now key a m | None => m end) !! k = m !! k).
      { destruct (m !! key) as [a|]; [|done]. unfold cleanupBody.
        destruct (dur <=? time.Sub now (lastSeen a)); [|done].
        by rewrite lookup_delete_ne. }
      rewrite Hm. destruct (decide (k ∈ keys)).
      * rewrite decide_True by by apply list_elem_of_further. done.
      * rewrite decide_False; [done|]. by intros [?|?]%elem_of_cons.
Qed.

Lemma keyOrder_elem keys m k : keyOrder keys m → k ∈ keys ↔ is_Some (m !! k).
Proof.
  unfold keyOrder. intros ->. rewrite list_elem_of_fmap. split.
  - intros [[k' a] [-> Ha%elem_of_map_to_list] ]. by exists a.
  - intros [a Ha]. exists (k, a). split; [done|]. by apply elem_of_map_to_list.
Qed.

Lemma keyOrder_map_to_list m : keyOrder (map_to_list m).*1 m.
Proof. unfold keyOrder. reflexivity. Qed.

(** In any order of the keys, the reset loop maps [zeroCount] over the
    map and the cleanup loop drops exactly the expired records. *)
Lemma reset_any_order keys m k :
  keyOrder keys m → rangeOver resetBody keys m !! k = zeroCount <$> m !! k.
Proof.
  intros Hk. rewrite rangeOver_reset_lookup. case_decide as Hin; [done|].
  destruct (m !! k) eqn:E; [|done].
  exfalso. apply Hin. apply (keyOrder_elem _ _ _ Hk). by rewrite E.
Qed.

Lemma cleanup_any_order dur now keys m k :
  keyOrder keys m →
  rangeOver (cleanupBody dur now) keys m !! k = m !! k ≫= keepFresh dur now.
Proof.
  intros Hk. rewrite rangeOver_cleanup_lookup. case_decide as Hin; [done|].
  destruct (m !! k) eqn:E; [|done].
  exfalso. apply Hin. apply (keyOrder_elem _ _ _ Hk). by rewrite E.
Qed.

Lemma limitReset_any_order keys rl :
  keyOrder keys (activity rl) → limitResetOver keys rl = limitResetTick rl.
Proof.
  intros Hk. unfold limitResetTick, limitResetOver. f_equal.
  apply map_eq. intros k.
  rewrite !reset_any_order; [done | apply keyOrder_map_to_list | done].
Qed.

Lemma clientCleanup_any_order dur now keys rl :
  keyOrder keys (activity rl) →
  clientCleanupOver dur now keys rl = clientCleanupTick dur now rl.
Proof.
  intros Hk. unfold clientCleanupTick, clientCleanupOver. f_equal.
  apply map_eq. intros k.
  rewrite !cleanup_any_order; [done | apply keyOrder_map_to_list | done].
Qed.

Lemma limitResetTick_lookup rl k :
  activity (limitResetTick rl) !! k = zeroCount <$> activity rl !! k.
Proof. apply reset_any_order, keyOrder_map_to_list. Qed.

Lemma clientCleanupTick_lookup dur now rl k :
  activity (clientCleanupTick dur now rl) !! k =
    activity rl !! k ≫= keepFresh dur now.
Proof. apply cleanup_any_order, keyOrder_map_to_list. Qed.

End RangeFacts.

(** ** Runs within one interval *)

Section RunFacts.

Lemma wrap_add_l x y : GoInt.wrap (GoInt.wrap x + y) = GoInt.wrap (x + y).
Proof.
  unfold GoInt.wrap.
  replace ((x - GoInt.min_int) mod 2 ^ GoInt.bits + GoInt.min_int + y - GoInt.min_int)
    with ((x - GoInt.min_int) mod 2 ^ GoInt.bits + y) by lia.
  rewrite Zplus_mod_idemp_l. f_equal. f_equal. lia.
Qed.

Lemma Sub_lt dur t u : t - u < dur → time.minDuration < dur → time.Sub t u < dur.
Proof.
  unfold time.Sub. intros H1 H2.
  destruct (Z.ltb_spec time.maxDuration (t - u)); [lia|].
  destruct (Z.ltb_spec (t - u) time.minDuration); lia.
Qed.

Lemma step_EvAllow r now rq :
  step r (EvAllow now rq) =
    ({| limiter := (Allow now rq (limiter r)).2;
        limitResetEvery := limitResetEvery r;
        clientCleanupEvery := clientCleanupEvery r |},
     Some (Allow now rq (limiter r)).1).
Proof. done. Qed.

Lemma step_frame r e :
  limit (limiter (step r e).1) = limit (limiter r) ∧
  limitResetEvery (step r e).1 = limitResetEvery r ∧
  clientCleanupEvery (step r e).1 = clientCleanupEvery r.
Proof. destruct e; done. Qed.

Lemma run_cons r e es :
  run r (e :: es) =
    ((run (step r e).1 es).1,
     match (step r e).2 with
     | Some b => b :: (run (step r e).1 es).2
     | None => (run (step r e).1 es).2
     end).
Proof.
  simpl. destruct (step r e) as [r1 o]. simpl.
  by destruct (run r1 es) as [r2 os].
Qed.

Lemma run_app r es1 es2 :
  (run r (es1 ++ es2)).1 = (run (run r es1).1 es2).1.
Proof.
  revert r. induction es1 as [|e es1 IH]; intros r; [done|].
  rewrite <- app_comm_cons, !run_cons. simpl. apply IH.
Qed.

Lemma run_frame r es :
  limit (limiter (run r es).1) = limit (limiter r) ∧
  limitResetEvery (run r es).1 = limitResetEvery r ∧
  clientCleanupEvery (run r es).1 = clientCleanupEvery r.
Proof.
  revert r. induction es as [|e es IH]; intros r; [done|].
  rewrite run_cons. simpl.
  destruct (IH (step r e).1) as (-> & -> & ->). apply step_frame.
Qed.

Lemma validated_run r es : validated r → validated (run r es).1.
Proof.
  unfold validated. by destruct (run_frame r es) as (-> & -> & ->).
Qed.

Lemma New_success cfg r :
  New cfg = (Some r, None) →
  r = {| limiter := {| limit := Limit cfg; activity := ∅ |};
         limitResetEvery := LimitInterval cfg;
         clientCleanupEvery := ClientTimeout cfg |} ∧
  validated r.
Proof.
  unfold New, validated.
  destruct (Z.leb_spec (Limit cfg) 0); [done|].
  destruct (Z.ltb_spec (LimitInterval cfg) time.Second); [done|].
  destruct (Z.leb_spec (ClientTimeout cfg) (LimitInterval cfg)); [done|].
  intros [= <-]. simpl. done.
Qed.

Lemma allZero_reset rl : allZero (limitResetTick rl).
Proof.
  intros id a. rewrite limitResetTick_lookup.
  destruct (activity rl !! id); [|done]. by intros [= <-].
Qed.

Lemma allZero_countOf rl id : allZero rl → countOf id rl = 0.
Proof.
  intros H. unfold countOf. destruct (activity rl !! id) eqn:E; [|done].
  by apply (H id).
Qed.

Lemma allZero_seenSince start rl : allZero rl → seenSince start rl.
Proof. intros H id a Ha Hc. by apply H in Ha. Qed.

Lemma intervalStart_facts cfg r :
  intervalStart cfg r →
  validated r ∧ allZero (limiter r) ∧
  limit (limiter r) = Limit cfg ∧
  limitResetEvery r = LimitInterval cfg ∧
  clientCleanupEvery r = ClientTimeout cfg.
Proof.
  intros (r0 & past & [-> Hv]%New_success & Hr).
  destruct Hr as [->| ->].
  - split; [done|]. split; [|done]. intros id a Ha. simpl in Ha.
    by rewrite lookup_empty in Ha.
  - split; [by apply validated_run|].
    split; [rewrite run_app; simpl; apply allZero_reset|].
    apply run_frame.
Qed.

(** One event of the interval: the count of each client, and the
    invariant. *)
Lemma step_countOf start r e id :
  validated r → seenSince start (limiter r) →
  withinInterval start (limitResetEvery r) e →
  countOf id (limiter (step r e).1) =
    GoInt.wrap (countOf id (limiter r) + Z.of_nat (callsBy id [e])) ∨
  (callsBy id [e] = O ∧ countOf id (limiter (step r e).1) = countOf id (limiter r)).
Proof.
  intros Hv Hs He. destruct e as [now rq| |now]; [|done|].
  - rewrite step_EvAllow. cbn [limiter fst snd callsBy].
    destruct (decide (clientID rq = id)) as [<-|Hne].
    + left. rewrite Allow_countOf_self. unfold GoInt.add. f_equal.
    + right. split; [done|]. by apply Allow_countOf_other.
  - right. split; [done|]. simpl in *. unfold countOf.
    rewrite clientCleanupTick_lookup.
    destruct (activity (limiter r) !! id) as [a|] eqn:Ha; [|done]. simpl.
    unfold keepFresh, expired.
    destruct (Z.leb_spec (clientCleanupEvery r) (time.Sub now (lastSeen a))) as [Hexp|]; [|done].
    destruct (decide (requestCount a = 0)) as [->|Hc]; [done|].
    exfalso. specialize (Hs id a Ha Hc).
    destruct Hv as (_ & Hsec & Hlt).
    assert (time.Sub now (lastSeen a) < clientCleanupEvery r); [|lia].
    apply Sub_lt; [lia|]. unfold time.minDuration, time.Second, time.Millisecond,
      time.Microsecond, time.Nanosecond in *. lia.
Qed.

Lemma step_seenSince start r e :
  seenSince start (limiter r) →
  withinInterval start (limitResetEvery r) e →
  seenSince start (limiter (step r e).1).
Proof.
  intros Hs He. destruct e as [now rq| |now]; [|done|].
  - rewrite step_EvAllow. cbn [limiter fst snd withinInterval] in *.
    intros id a. destruct (decide (id = clientID rq)) as [->|Hne].
    + rewrite Allow_lookup_self. by intros [= <-].
    + rewrite Allow_lookup_other by done. apply Hs.
  - simpl in *. intros id a. rewrite clientCleanupTick_lookup.
    destruct (activity (limiter r) !! id) as [a'|] eqn:Ha; [|done]. simpl.
    unfold keepFresh. destruct (expired _ _ _); [done|].
    intros [= <-]. by apply (Hs id).
Qed.

Lemma callsBy_app id es1 es2 :
  callsBy id (es1 ++ es2) = (callsBy id es1 + callsBy id es2)%nat.
Proof.
  induction es1 as [|e es1 IH]; [done|].
  destruct e as [now rq| |now]; simpl; [|done|done].
  destruct (decide (clientID rq = id)); simpl; by rewrite IH.
Qed.

Lemma run_seenSince start r es :
  seenSince start (limiter r) →
  Forall (withinInterval start (limitResetEvery r)) es →
  seenSince start (limiter (run r es).1).
Proof.
  revert r. induction es as [|e es IH]; intros r Hs Hes; [done|].
  apply Forall_cons in Hes as [He Hes]. rewrite run_cons. simpl.
  apply IH; [by apply step_seenSince|].
  by destruct (step_frame r e) as (_ & -> & _).
Qed.

(** The count of a client after a run within one interval: the count
    before plus the client's calls, in the arithmetic of [int]. *)
Lemma run_countOf start r es id :
  validated r → seenSince start (limiter r) →
  Forall (withinInterval start (limitResetEvery r)) es →
  GoInt.in_range (countOf id (limiter r)) →
  countOf id (limiter (run r es).1) =
    GoInt.wrap (countOf id (limiter r) + Z.of_nat (callsBy id es)).
Proof.
  revert r. induction es as [|e es IH]; intros r Hv Hs Hes Hr.
  - simpl. rewrite Z.add_0_r. by rewrite wrap_in_range.
  - apply Forall_cons in Hes as [He Hes]. rewrite run_cons. simpl fst.
    assert (Hv' : validated (step r e).1).
    { unfold validated. by destruct (step_frame r e) as (-> & -> & ->). }
    assert (Hes' : Forall (withinInterval start (limitResetEvery (step r e).1)) es).
    { by destruct (step_frame r e) as (_ & -> & _). }
    pose proof (step_seenSince start r e Hs He) as Hs'.
    change (e :: es) with ([e] ++ es). rewrite callsBy_app, Nat2Z.inj_add.
    destruct (step_countOf start r e id Hv Hs He) as [Hc|[H0 Hc] ].
    + rewrite IH; [|done|done|done|rewrite Hc; apply wrap_range].
      rewrite Hc, wrap_add_l. f_equal. lia.
    + rewrite IH; [|done|done|done|by rewrite Hc].
      rewrite Hc, H0. f_equal.
Qed.

(** What a call returns after a run that started an interval. *)
Lemma allow_after_run start r es now rq :
  validated r → allZero (limiter r) →
  Forall (withinInterval start (limitResetEvery r)) es →
  (step (run r es).1 (EvAllow now rq)).2 =
    Some (GoInt.wrap (Z.of_nat (callsBy (clientID rq) es) + 1) <=? limit (limiter r)).
Proof.
  intros Hv Hz Hes. rewrite step_EvAllow. cbn [snd]. f_equal.
  rewrite Allow_result.
  assert (Hc : countOf (clientID rq) (limiter r) = 0) by by apply allZero_countOf.
  rewrite (run_countOf start); [|done|by apply allZero_seenSince|done|by rewrite Hc].
  rewrite Hc. unfold GoInt.add. rewrite wrap_add_l.
  by destruct (run_frame r es) as (-> & _).
Qed.

End RunFacts.

(** ** Admission *)

Section Admission.

Lemma callsBy_replicate n now rq :
  callsBy (clientID rq) (replicate n (EvAllow now rq)) = n.
Proof.
  induction n as [|n IH]; [done|]. simpl.
  rewrite decide_True by done. by rewrite IH.
Qed.

Lemma withinInterval_replicate start len n now rq :
  start <= now → Forall (withinInterval start len) (replicate n (EvAllow now rq)).
Proof. intros H. by apply Forall_replicate. Qed.

Lemma countOf_after_run start r es id :
  validated r → allZero (limiter r) →
  Forall (withinInterval start (limitResetEvery r)) es →
  Z.of_nat (callsBy id es) <= GoInt.max_int →
  countOf id (limiter (run r es).1) = Z.of_nat (callsBy id es).
Proof.
  intros Hv Hz Hes Hn.
  assert (Hc : countOf id (limiter r) = 0) by by apply allZero_countOf.
  rewrite (run_countOf start); [|done|by apply allZero_seenSince|done|by rewrite Hc].
  rewrite Hc. apply wrap_in_range. unfold GoInt.in_range, GoInt.min_int, GoInt.bits. lia.
Qed.

Lemma wrap_past_max : GoInt.wrap (GoInt.max_int + 1) = GoInt.min_int.
Proof. reflexivity. Qed.

(** C1 (as amended): a call of Allow reads the client's stored count, 0
    when the client has no record, stores that count plus one in the
    arithmetic of int together with the time of the call, and returns
    true exactly when the stored result is at most the limit; the sum is
    the count plus one whenever the count is below the largest int.  So
    for a limiter made with Limit = N below the largest int, from the
    start of an interval and with no tick of the reset loop in between, a
    call of a client that has made k <= N calls returns true exactly when
    k < N: the first N calls return true and call N+1 returns false. *)
Theorem Allow_counts_and_decides :
  (∀ now rq rl,
     let c := countOf (clientID rq) rl in
     (activity rl !! clientID rq = None → c = 0) ∧
     activity (Allow now rq rl).2 !! clientID rq =
       Some {| requestCount := GoInt.add c 1; lastSeen := now |} ∧
     (Allow now rq rl).1 = (GoInt.add c 1 <=? limit rl) ∧
     (GoInt.in_range c → c < GoInt.max_int → GoInt.add c 1 = c + 1)) ∧
  (∀ cfg r start es now rq,
     intervalStart cfg r →
     Limit cfg < GoInt.max_int →
     Forall (withinInterval start (LimitInterval cfg)) es →
     Z.of_nat (callsBy (clientID rq) es) <= Limit cfg →
     (step (run r es).1 (EvAllow now rq)).2 =
       Some (Z.of_nat (callsBy (clientID rq) es) <? Limit cfg)).
Proof.
  split.
  - intros now rq rl c. repeat split.
    + intros H. unfold c, countOf. by rewrite H.
    + apply Allow_lookup_self.
    + apply Allow_result.
    + intros [Hlo _] Hhi. apply add_one_below_max; lia.
  - intros cfg r start es now rq Hr HN Hes Hk.
    destruct (intervalStart_facts _ _ Hr) as (Hv & Hz & Hl & Hp & _).
    rewrite (allow_after_run start) by (try done; by rewrite Hp).
    rewrite Hl. f_equal.
    rewrite wrap_in_range.
    + destruct (Z.leb_spec (Z.of_nat (callsBy (clientID rq) es) + 1) (Limit cfg));
        destruct (Z.ltb_spec (Z.of_nat (callsBy (clientID rq) es)) (Limit cfg)); lia.
    + unfold GoInt.in_range, GoInt.min_int, GoInt.bits in *. lia.
Qed.

(** The scenario of the test of the limiter: limit 5, six calls. *)
Lemma Allow_counts_and_decides_witness :
  (step (run {| limiter := {| limit := 5; activity := ∅ |};
                limitResetEvery := time.Second;
                clientCleanupEvery := time.Minute |}
             (replicate 5 (EvAllow 0 {| RemoteAddr := "test" |}))).1
        (EvAllow 0 {| RemoteAddr := "test" |})).2 = Some false.
Proof.
  apply (proj2 Allow_counts_and_decides
           {| Limit := 5; LimitInterval := time.Second; ClientTimeout := time.Minute |}
           _ 0 (replicate 5 (EvAllow 0 {| RemoteAddr := "test" |})) 0
           {| RemoteAddr := "test" |}).
  - eexists. exists []. split; [reflexivity|]. left. reflexivity.
  - vm_compute. reflexivity.
  - repeat constructor; vm_compute; discriminate.
  - vm_compute. discriminate.
Defined.

(** C1 (as stated) fails for Limit = 2^63-1, the largest int: after that
    many calls of one client the stored count is the largest int, the
    next call wraps it around to the smallest one instead of adding one,
    and that call, number N+1, returns true. *)
Lemma Allow_at_largest_limit :
  let cfg := {| Limit := GoInt.max_int;
                LimitInterval := time.Second;
                ClientTimeout := time.Minute |} in
  let rq := {| RemoteAddr := "test" |} in
  ∃ r, New cfg = (Some r, None) ∧
    let rN := (run r (replicate (Z.to_nat (Limit cfg)) (EvAllow 0 rq))).1 in
    countOf (clientID rq) (limiter rN) = GoInt.max_int ∧
    (step rN (EvAllow 0 rq)).2 = Some true ∧
    countOf (clientID rq) (limiter (step rN (EvAllow 0 rq)).1) = GoInt.min_int.
Proof.
  intros cfg rq.
  destruct (New cfg) as [ [r|] [err|] ] eqn:HN; try by vm_compute in HN.
  exists r. split; [done|].
  destruct (New_success _ _ HN) as [Hr Hv].
  assert (Hz : allZero (limiter r)).
  { rewrite Hr. intros id a Ha. simpl in Ha. by rewrite lookup_empty in Ha. }
  assert (Hn : Z.of_nat (Z.to_nat (Limit cfg)) = GoInt.max_int).
  { rewrite Z2Nat.id; [done|]. by vm_compute. }
  set (n := Z.to_nat (Limit cfg)) in *. clearbody n.
  assert (Hes : Forall (withinInterval 0 (limitResetEvery r))
                  (replicate n (EvAllow 0 rq))).
  { by apply withinInterval_replicate. }
  assert (Hc : countOf (clientID rq)
                 (limiter (run r (replicate n (EvAllow 0 rq))).1) = GoInt.max_int).
  { rewrite (countOf_after_run 0); rewrite ?callsBy_replicate; try done. lia. }
  cbn zeta. split; [done|]. split.
  - rewrite (allow_after_run 0) by done.
    rewrite callsBy_replicate, Hn, wrap_past_max.
    rewrite Hr. reflexivity.
  - rewrite step_EvAllow. cbn [fst limiter].
    rewrite Allow_countOf_self, Hc. reflexivity.
Qed.

(** C5 (as amended): from the start of an interval and with no tick of
    the reset loop in between, as long as the client makes at most
    2^63-1 calls, the largest int, the stored count of the client does
    not decrease, and once a call of the client has returned false every
    later call of the client returns false. *)
Theorem denied_until_reset cfg r start es id :
  intervalStart cfg r →
  Forall (withinInterval start (LimitInterval cfg)) es →
  Z.of_nat (callsBy id es) <= GoInt.max_int →
  (∀ es1 es2, es = es1 ++ es2 →
     countOf id (limiter (run r es1).1) <= countOf id (limiter (run r es).1)) ∧
  (∀ es1 now1 rq1 es2 now2 rq2 es3,
     es = es1 ++ EvAllow now1 rq1 :: es2 ++ EvAllow now2 rq2 :: es3 →
     clientID rq1 = id → clientID rq2 = id →
     (step (run r es1).1 (EvAllow now1 rq1)).2 = Some false →
     (step (run r (es1 ++ EvAllow now1 rq1 :: es2)).1 (EvAllow now2 rq2)).2 = Some false).
Proof.
  intros Hr Hes Hn.
  destruct (intervalStart_facts _ _ Hr) as (Hv & Hz & Hl & Hp & _).
  rewrite <- Hp in Hes. split.
  - intros es1 es2 ->. rewrite callsBy_app in Hn.
    apply Forall_app in Hes as Hes1. destruct Hes1 as [Hes1 _].
    rewrite !(countOf_after_run start) by (try done; rewrite ?callsBy_app; lia).
    rewrite callsBy_app. lia.
  - intros es1 now1 rq1 es2 now2 rq2 es3 -> H1 H2.
    rewrite app_comm_cons, app_assoc in Hes.
    apply Forall_app in Hes as [Hes12 _].
    apply Forall_app in Hes12 as Hes1. destruct Hes1 as [Hes1 _].
    rewrite !(allow_after_run start) by done.
    rewrite H1, H2. intros [= Hd]. f_equal.
    rewrite !callsBy_app in Hn. simpl in Hn.
    rewrite !decide_True in Hn by done.
    rewrite callsBy_app. simpl. rewrite decide_True by done.
    rewrite callsBy_app in Hn. simpl in Hn. rewrite decide_True in Hn by done.
    rewrite wrap_in_range in Hd
      by (unfold GoInt.in_range, GoInt.min_int, GoInt.bits in *; lia).
    rewrite wrap_in_range
      by (unfold GoInt.in_range, GoInt.min_int, GoInt.bits in *; lia).
    apply Z.leb_gt in Hd. apply Z.leb_gt. lia.
Qed.

(** Seven calls of one client against a limit of 5: the sixth is denied,
    and so is the seventh. *)
Lemma denied_until_reset_witness :
  (step (run {| limiter := {| limit := 5; activity := ∅ |};
                limitResetEvery := time.Second;
                clientCleanupEvery := time.Minute |}
             (replicate 5 (EvAllow 0 {| RemoteAddr := "test" |}) ++
              EvAllow 0 {| RemoteAddr := "test" |} :: [EvClientCleanup 7])).1
        (EvAllow 9 {| RemoteAddr := "test" |})).2 = Some false.
Proof.
  apply (proj2 (denied_until_reset
           {| Limit := 5; LimitInterval := time.Second; ClientTimeout := time.Minute |}
           _ 0
           (replicate 5 (EvAllow 0 {| RemoteAddr := "test" |}) ++
            EvAllow 0 {| RemoteAddr := "test" |} :: [EvClientCleanup 7] ++
            EvAllow 9 {| RemoteAddr := "test" |} :: [])
           EmptyString
           ltac:(eexists; exists []; split; [reflexivity|left; reflexivity])
           ltac:(repeat constructor; vm_compute; discriminate)
           ltac:(vm_compute; discriminate))
         _ 0 _ _ _ _ [] eq_refl eq_refl eq_refl).
  vm_compute. reflexivity.
Defined.

(** C5 (as stated) fails when the count wraps around: against a limit of
    5 the sixth call of a client is denied, and after 2^63-1 calls in
    the interval the next call finds the largest int stored, leaves the
    smallest one and returns true. *)
Lemma denied_then_allowed_after_wrap :
  let cfg := {| Limit := 5;
                LimitInterval := time.Second;
                ClientTimeout := time.Minute |} in
  let rq := {| RemoteAddr := "test" |} in
  let es1 := replicate 5 (EvAllow 0 rq) in
  let es2 := replicate (Z.to_nat (GoInt.max_int - 6)) (EvAllow 0 rq) in
  ∃ r, New cfg = (Some r, None) ∧
    (step (run r es1).1 (EvAllow 0 rq)).2 = Some false ∧
    (step (run r (es1 ++ EvAllow 0 rq :: es2)).1 (EvAllow 0 rq)).2 = Some true ∧
    countOf (clientID rq)
      (limiter (step (run r (es1 ++ EvAllow 0 rq :: es2)).1 (EvAllow 0 rq)).1)
    < countOf (clientID rq) (limiter (run r (es1 ++ EvAllow 0 rq :: es2)).1).
Proof.
  intros cfg rq es1 es2.
  destruct (New cfg) as [ [r|] [err|] ] eqn:HN; try by vm_compute in HN.
  exists r. split; [done|].
  destruct (New_success _ _ HN) as [Hr Hv].
  assert (Hz : allZero (limiter r)).
  { rewrite Hr. intros id a Ha. simpl in Ha. by rewrite lookup_empty in Ha. }
  assert (Hn : Z.of_nat (Z.to_nat (GoInt.max_int - 6)) = GoInt.max_int - 6).
  { rewrite Z2Nat.id; [done|]. by vm_compute. }
  unfold es2. set (n := Z.to_nat (GoInt.max_int - 6)) in *. clearbody n.
  assert (Hes1 : Forall (withinInterval 0 (limitResetEvery r)) es1).
  { by apply withinInterval_replicate. }
  assert (Hes : Forall (withinInterval 0 (limitResetEvery r))
                  (es1 ++ EvAllow 0 rq :: replicate n (EvAllow 0 rq))).
  { apply Forall_app. split; [done|]. apply Forall_cons. split; [done|].
    by apply withinInterval_replicate. }
  assert (Hk : Z.of_nat (callsBy (clientID rq)
                 (es1 ++ EvAllow 0 rq :: replicate n (EvAllow 0 rq))) = GoInt.max_int).
  { rewrite callsBy_app. unfold es1. rewrite callsBy_replicate.
    cbn [callsBy]. rewrite decide_True by done. rewrite callsBy_replicate. lia. }
  split; [|split].
  - rewrite (allow_after_run 0) by done. unfold es1.
    rewrite callsBy_replicate, Hr. reflexivity.
  - rewrite (allow_after_run 0) by done.
    rewrite Hk, wrap_past_max, Hr. reflexivity.
  - rewrite step_EvAllow. cbn [fst limiter].
    rewrite Allow_countOf_self.
    rewrite (countOf_after_run 0) by (try done; lia).
    rewrite Hk. by vm_compute.
Qed.

End Admission.

(** ** Construction *)

Section Construction.

(** C2: New checks the limit, then the limit interval, then the client
    timeout, and returns the error of the first rule that fails and no
    limiter: ErrInvalidLimit exactly when Limit <= 0; otherwise
    ErrInvalidLimitInterval exactly when LimitInterval is less than a
    second; otherwise ErrInvalidClientTimeout exactly when ClientTimeout
    <= LimitInterval; otherwise a limiter with an empty store and no
    error.  The three errors are different values with different texts. *)
Theorem New_validates_in_order cfg :
  (New cfg = (None, Some ErrInvalidLimit) ↔ Limit cfg <= 0) ∧
  (New cfg = (None, Some ErrInvalidLimitInterval) ↔
     0 < Limit cfg ∧ LimitInterval cfg < time.Second) ∧
  (New cfg = (None, Some ErrInvalidClientTimeout) ↔
     0 < Limit cfg ∧ time.Second <= LimitInterval cfg ∧
     ClientTimeout cfg <= LimitInterval cfg) ∧
  (New cfg = (Some {| limiter := {| limit := Limit cfg; activity := ∅ |};
                      limitResetEvery := LimitInterval cfg;
                      clientCleanupEvery := ClientTimeout cfg |}, None) ↔
     0 < Limit cfg ∧ time.Second <= LimitInterval cfg ∧
     LimitInterval cfg < ClientTimeout cfg) ∧
  ((∃ err, New cfg = (None, Some err)) ∨ (∃ r, New cfg = (Some r, None))) ∧
  (ErrInvalidLimit ≠ ErrInvalidLimitInterval ∧
   ErrInvalidLimit ≠ ErrInvalidClientTimeout ∧
   ErrInvalidLimitInterval ≠ ErrInvalidClientTimeout) ∧
  (Error ErrInvalidLimit ≠ Error ErrInvalidLimitInterval ∧
   Error ErrInvalidLimit ≠ Error ErrInvalidClientTimeout ∧
   Error ErrInvalidLimitInterval ≠ Error ErrInvalidClientTimeout).
Proof.
  unfold New.
  destruct (Z.leb_spec (Limit cfg) 0);
    [|destruct (Z.ltb_spec (LimitInterval cfg) time.Second);
      [|destruct (Z.leb_spec (ClientTimeout cfg) (LimitInterval cfg))] ];
    (repeat split; try done; try lia; try (intros [= ]); try (by left; eexists);
     try (by right; eexists)).
Qed.

(** C8: NewRateLimiter returns the no-op limiter, and no error, exactly
    when the limit is <= 0; for a positive limit it returns what New
    makes of that limit, a limit interval of one second and a client
    timeout of one minute, and New accepts that configuration. *)
Theorem NewRateLimiter_selects limit :
  (api.NewRateLimiter limit = (Some (api.Noop NewNoopLimiter), None) ↔ limit <= 0) ∧
  (0 < limit →
     New {| Limit := limit;
            LimitInterval := time.Second;
            ClientTimeout := time.Minute |} =
       (Some {| limiter := {| limit := limit; activity := ∅ |};
                limitResetEvery := time.Second;
                clientCleanupEvery := time.Minute |}, None) ∧
     api.NewRateLimiter limit =
       (Some (api.Limiting
                {| limiter := {| limit := limit; activity := ∅ |};
                   limitResetEvery := time.Second;
                   clientCleanupEvery := time.Minute |}), None)) ∧
  time.Second = 1000000000 ∧ time.Minute = 60000000000.
Proof.
  unfold api.NewRateLimiter, New. simpl.
  destruct (Z.leb_spec limit 0); (repeat split; try done; try lia).
Qed.

Lemma NewRateLimiter_selects_witness :
  api.NewRateLimiter 100 =
    (Some (api.Limiting
             {| limiter := {| limit := 100; activity := ∅ |};
                limitResetEvery := time.Second;
                clientCleanupEvery := time.Minute |}), None).
Proof.
  apply (proj1 (proj2 (NewRateLimiter_selects 100))). lia.
Defined.

(** C7: Allow of the no-op limiter returns true for every request and
    leaves the limiter as it was, so any number of calls in a row all
    return true; the limiter has one value only, it holds no state; and
    NewNoopLimiter takes no configuration and returns no error. *)
Theorem NoopLimiter_always_allows :
  (∀ n rq, NoopAllow n rq = (true, n)) ∧
  (∀ rqs,
     (noopRun NewNoopLimiter rqs).1 = NewNoopLimiter ∧
     (noopRun NewNoopLimiter rqs).2 = replicate (length rqs) true) ∧
  (∀ n : NoopLimiter, n = NewNoopLimiter).
Proof.
  split; [done|]. split; [|by intros [] ].
  induction rqs as [|rq rqs [IH1 IH2] ]; [done|]. simpl.
  destruct (noopRun NewNoopLimiter rqs) as [n oks]. simpl in *.
  by rewrite IH1, IH2.
Qed.

End Construction.

(** ** What a call leaves alone *)

Section Frame.

(** C9: a call of Allow changes at most the record of the identity
    taken from its request.  The record of every other identity is as
    before; the tracked identities are the same when the identity had a
    record, and that one identity more when it had none; NumberOfClients
    stays or grows by one, it never decreases. *)
Theorem Allow_touches_one_record now rq rl :
  (∀ id, id ≠ clientID rq →
     activity (Allow now rq rl).2 !! id = activity rl !! id) ∧
  (is_Some (activity rl !! clientID rq) →
     dom (activity (Allow now rq rl).2) = dom (activity rl) ∧
     NumberOfClients (Allow now rq rl).2 = NumberOfClients rl) ∧
  (activity rl !! clientID rq = None →
     dom (activity (Allow now rq rl).2) = {[clientID rq]} ∪ dom (activity rl) ∧
     (clientID rq ∉ dom (activity rl)) ∧
     NumberOfClients (Allow now rq rl).2 = NumberOfClients rl + 1) ∧
  NumberOfClients rl <= NumberOfClients (Allow now rq rl).2 ∧
  limit (Allow now rq rl).2 = limit rl.
Proof.
  split; [intros id Hne; by apply Allow_lookup_other|].
  split; [|split; [|split; [|done] ] ].
  - intros Hs. split; [|by apply Allow_size_tracked].
    rewrite Allow_dom. apply subseteq_union_1_L, singleton_subseteq_l.
    by apply elem_of_dom.
  - intros Hn. split; [apply Allow_dom|]. split; [by apply not_elem_of_dom|].
    by apply Allow_size_new.
  - destruct (activity rl !! clientID rq) eqn:E.
    + rewrite Allow_size_tracked; [lia | by rewrite E].
    + rewrite Allow_size_new by done. lia.
Qed.

(** Two clients tracked; a third one calls. *)
Lemma Allow_touches_one_record_witness :
  let rl := {| limit := 5;
               activity := {[ "10.0.0.1" := {| requestCount := 2; lastSeen := 3 |};
                              "10.0.0.2" := {| requestCount := 7; lastSeen := 4 |} ]} |} in
  let rq := {| RemoteAddr := "10.0.0.3:4711" |} in
  activity (Allow 9 rq rl).2 !! "10.0.0.2" = activity rl !! "10.0.0.2" ∧
  NumberOfClients (Allow 9 rq rl).2 = NumberOfClients rl + 1.
Proof.
  intros rl rq.
  destruct (Allow_touches_one_record 9 rq rl) as (H1 & _ & H3 & _).
  split.
  - apply H1. vm_compute. discriminate.
  - apply H3. vm_compute. reflexivity.
Defined.

End Frame.

(** ** The two loops *)

Section Loops.

Lemma limitResetTick_fmap rl :
  activity (limitResetTick rl) = zeroCount <$> activity rl.
Proof.
  apply map_eq. intros k. by rewrite limitResetTick_lookup, lookup_fmap.
Qed.

(** C4: a tick of the reset loop, whose period is LimitInterval, sets
    the count of every record to 0 and leaves its lastSeen as it was; it
    adds no record and removes none, so the tracked identities and
    NumberOfClients are unchanged, and so is the limit.  The order in
    which the loop meets the keys of the map makes no difference. *)
Theorem reset_tick_zeroes_counts r :
  let r' := (step r EvLimitReset).1 in
  (∀ id a, activity (limiter r) !! id = Some a →
     activity (limiter r') !! id =
       Some {| requestCount := 0; lastSeen := lastSeen a |}) ∧
  (∀ id, activity (limiter r) !! id = None →
     activity (limiter r') !! id = None) ∧
  dom (activity (limiter r')) = dom (activity (limiter r)) ∧
  NumberOfClients (limiter r') = NumberOfClients (limiter r) ∧
  limit (limiter r') = limit (limiter r) ∧
  (∀ keys, keyOrder keys (activity (limiter r)) →
     limitResetOver keys (limiter r) = limiter r') ∧
  (∀ cfg r0 past, New cfg = (Some r0, None) → r = (run r0 past).1 →
     limitResetEvery r = LimitInterval cfg).
Proof.
  cbn zeta. cbn [step fst limiter].
  split; [|split; [|split; [|split; [|split; [done|split] ] ] ] ].
  - intros id a Ha. by rewrite limitResetTick_lookup, Ha.
  - intros id Ha. by rewrite limitResetTick_lookup, Ha.
  - rewrite limitResetTick_fmap. apply dom_fmap_L.
  - unfold NumberOfClients. rewrite limitResetTick_fmap. by rewrite map_size_fmap.
  - intros keys Hk. by apply limitReset_any_order.
  - intros cfg r0 past [Hr0 _]%New_success ->.
    destruct (run_frame r0 past) as (_ & -> & _). by rewrite Hr0.
Qed.

(** Two records, one over the limit; the map ranged over in the reverse
    of its own order. *)
Lemma reset_tick_zeroes_counts_witness :
  let r := {| limiter :=
                {| limit := 5;
                   activity := {[ "10.0.0.1" := {| requestCount := 2; lastSeen := 3 |};
                                  "10.0.0.2" := {| requestCount := 7; lastSeen := 4 |} ]} |};
              limitResetEvery := time.Second;
              clientCleanupEvery := time.Minute |} in
  activity (limiter (step r EvLimitReset).1) !! "10.0.0.2" =
    Some {| requestCount := 0; lastSeen := 4 |} ∧
  limitResetOver (reverse (map_to_list (activity (limiter r))).*1) (limiter r) =
    limiter (step r EvLimitReset).1.
Proof.
  intros r. destruct (reset_tick_zeroes_counts r) as (H1 & _ & _ & _ & _ & H6 & _).
  split.
  - apply (H1 "10.0.0.2" {| requestCount := 7; lastSeen := 4 |}).
    vm_compute. reflexivity.
  - apply H6. unfold keyOrder. apply reverse_Permutation.
Defined.

(** C3: a tick of the cleanup loop, whose period is ClientTimeout,
    deletes a record exactly when the time of the tick minus the
    lastSeen of the record is at least ClientTimeout.  After the tick
    every record of the store was there before, unchanged, and has less
    than ClientTimeout between its lastSeen and the tick; every record
    with less than ClientTimeout between them is still there, unchanged.
    The order in which the loop meets the keys makes no difference. *)
Theorem cleanup_tick_evicts_idle r now :
  let r' := (step r (EvClientCleanup now)).1 in
  let dur := clientCleanupEvery r in
  (∀ id a, activity (limiter r) !! id = Some a →
     (activity (limiter r') !! id = None ↔ dur <= time.Sub now (lastSeen a)) ∧
     (time.Sub now (lastSeen a) < dur → activity (limiter r') !! id = Some a)) ∧
  (∀ id a, activity (limiter r') !! id = Some a →
     activity (limiter r) !! id = Some a ∧ time.Sub now (lastSeen a) < dur) ∧
  (∀ id, activity (limiter r) !! id = None → activity (limiter r') !! id = None) ∧
  (time.minDuration < dur <= time.maxDuration →
     ∀ id a, activity (limiter r) !! id = Some a →
       (activity (limiter r') !! id = None ↔ dur <= now - lastSeen a)) ∧
  (∀ keys, keyOrder keys (activity (limiter r)) →
     clientCleanupOver dur now keys (limiter r) = limiter r') ∧
  (∀ cfg r0 past, New cfg = (Some r0, None) → r = (run r0 past).1 →
     dur = ClientTimeout cfg ∧ time.Second < dur) ∧
  limit (limiter r') = limit (limiter r).
Proof.
  cbn zeta. cbn [step fst limiter].
  assert (Hlk : ∀ id a, activity (limiter r) !! id = Some a →
            activity (clientCleanupTick (clientCleanupEvery r) now (limiter r)) !! id =
              if clientCleanupEvery r <=? time.Sub now (lastSeen a) then None else Some a).
  { intros id a Ha. by rewrite clientCleanupTick_lookup, Ha. }
  split; [|split; [|split; [|split; [|split; [|split; [|done] ] ] ] ] ].
  - intros id a Ha. rewrite (Hlk id a Ha).
    destruct (Z.leb_spec (clientCleanupEvery r) (time.Sub now (lastSeen a))).
    + split; [done|lia].
    + split; [|done]. split; [done|lia].
  - intros id a. rewrite clientCleanupTick_lookup.
    destruct (activity (limiter r) !! id) as [a'|] eqn:Ha'; [|done]. simpl.
    unfold keepFresh, expired.
    destruct (Z.leb_spec (clientCleanupEvery r) (time.Sub now (lastSeen a'))); [done|].
    by intros [= <-].
  - intros id Ha. by rewrite clientCleanupTick_lookup, Ha.
  - intros Hd id a Ha. rewrite (Hlk id a Ha), <- (Sub_ge_iff _ _ _ Hd).
    destruct (Z.leb_spec (clientCleanupEvery r) (time.Sub now (lastSeen a)));
      split; (done || lia).
  - intros keys Hk. by apply clientCleanup_any_order.
  - intros cfg r0 past [Hr0 Hv]%New_success ->.
    destruct (run_frame r0 past) as (_ & _ & ->).
    destruct Hv as (_ & H1 & H2). rewrite Hr0 in *. simpl in *. split; [done|lia].
Qed.

(** A client last seen two minutes before the tick and one seen half a
    minute before it, with a client timeout of one minute. *)
Lemma cleanup_tick_evicts_idle_witness :
  let r := {| limiter :=
                {| limit := 5;
                   activity :=
                     {[ "10.0.0.1" := {| requestCount := 0; lastSeen := 0 |};
                        "10.0.0.2" := {| requestCount := 1; lastSeen := 90 * time.Second |} ]} |};
              limitResetEvery := time.Second;
              clientCleanupEvery := time.Minute |} in
  let now := 120 * time.Second in
  activity (limiter (step r (EvClientCleanup now)).1) !! "10.0.0.1" = None ∧
  activity (limiter (step r (EvClientCleanup now)).1) !! "10.0.0.2" =
    Some {| requestCount := 1; lastSeen := 90 * time.Second |} ∧
  clientCleanupOver (clientCleanupEvery r) now
      (reverse (map_to_list (activity (limiter r))).*1) (limiter r) =
    limiter (step r (EvClientCleanup now)).1.
Proof.
  intros r now.
  destruct (cleanup_tick_evicts_idle r now) as (H1 & _ & _ & H4 & H5 & _).
  split; [|split].
  - apply (H4 ltac:(by vm_compute) "10.0.0.1" {| requestCount := 0; lastSeen := 0 |}).
    + vm_compute. reflexivity.
    + vm_compute. discriminate.
  - apply (H1 "10.0.0.2" {| requestCount := 1; lastSeen := 90 * time.Second |}).
    + vm_compute. reflexivity.
    + vm_compute. reflexivity.
  - apply H5. unfold keyOrder. apply reverse_Permutation.
Defined.

End Loops.

(** ** The identity of a client *)

Section Identity.

Import patIP.

(** C6 (as amended): when the remote address ends in a colon and one to
    five decimal digits and has no line feed before that colon, the
    identity is all that comes before that colon; for every other
    remote address, with a line feed before the colon or without such an
    end, the identity is the empty string. *)
Theorem clientID_strips_port rq :
  (∀ g, addr_port (RemoteAddr rq) g → one_line g = true → clientID rq = g) ∧
  (∀ g, addr_port (RemoteAddr rq) g → one_line g = false →
     clientID rq = EmptyString) ∧
  ((¬ ∃ g, addr_port (RemoteAddr rq) g) → clientID rq = EmptyString).
Proof.
  split; [|split].
  - intros g Ha Hl. apply clientID_match. by apply group1_spec.
  - intros g Ha Hl. apply clientID_no_match.
    destruct (group1 (RemoteAddr rq)) as [g'|] eqn:E; [|done].
    apply group1_spec in E as [Ha' Hl'].
    rewrite (addr_port_unique _ _ _ Ha Ha') in Hl. congruence.
  - intros Hn. apply clientID_no_match.
    destruct (group1 (RemoteAddr rq)) as [g'|] eqn:E; [|done].
    apply group1_spec in E as [Ha' _]. exfalso. apply Hn. by exists g'.
Qed.

Lemma clientID_strips_port_witness :
  clientID {| RemoteAddr := "192.168.1.7:54321" |} = "192.168.1.7"%string ∧
  clientID {| RemoteAddr := "[::1]:8080" |} = "[::1]"%string.
Proof.
  split.
  - apply (proj1 (clientID_strips_port {| RemoteAddr := "192.168.1.7:54321" |})).
    + exists "54321"%string. split; [reflexivity|]. split; [simpl; lia|reflexivity].
    + reflexivity.
  - apply (proj1 (clientID_strips_port {| RemoteAddr := "[::1]:8080" |})).
    + exists "8080"%string. split; [reflexivity|]. split; [simpl; lia|reflexivity].
    + reflexivity.
Defined.

(** C6 (as stated) fails for a remote address with a line feed before
    its final colon: the address ends in a colon and four digits, and
    the identity is the empty string, not what comes before the colon. *)
Lemma clientID_line_feed :
  let addr := String "a" (String line_feed "b:8080") in
  let before := String "a" (String line_feed "b") in
  addr_port addr before ∧
  clientID {| RemoteAddr := addr |} = EmptyString ∧
  clientID {| RemoteAddr := addr |} ≠ before.
Proof.
  intros addr before. split; [|split].
  - exists "8080"%string. split; [reflexivity|]. split; [simpl; lia|reflexivity].
  - reflexivity.
  - discriminate.
Qed.

(** C10: a remote address that is just a colon and one to five digits
    matches the pattern and has the empty string as its identity, the
    identity of every address that does not match; Allow does the same
    for the one as for the other. *)
Theorem bare_port_is_empty_identity p rq rq' now rl :
  port_text p →
  RemoteAddr rq = String colon p →
  MatchString (RemoteAddr rq') = false →
  MatchString (RemoteAddr rq) = true ∧
  clientID rq = EmptyString ∧
  clientID rq' = EmptyString ∧
  Allow now rq rl = Allow now rq' rl.
Proof.
  intros Hp Hrq Hno.
  assert (Hg : group1 (RemoteAddr rq) = Some EmptyString).
  { rewrite Hrq. by apply (group1_complete EmptyString p). }
  assert (Hg' : group1 (RemoteAddr rq') = None).
  { unfold MatchString in Hno. by destruct (group1 (RemoteAddr rq')). }
  assert (H1 : clientID rq = EmptyString) by by apply clientID_match.
  assert (H2 : clientID rq' = EmptyString) by by apply clientID_no_match.
  split; [unfold MatchString; by rewrite Hg|].
  split; [done|]. split; [done|].
  unfold Allow. by rewrite H1, H2.
Qed.

Lemma bare_port_is_empty_identity_witness :
  clientID {| RemoteAddr := ":8080" |} = EmptyString ∧
  Allow 0 {| RemoteAddr := ":8080" |} {| limit := 5; activity := ∅ |} =
    Allow 0 {| RemoteAddr := "test" |} {| limit := 5; activity := ∅ |}.
Proof.
  destruct (bare_port_is_empty_identity "8080" {| RemoteAddr := ":8080" |}
              {| RemoteAddr := "test" |} 0 {| limit := 5; activity := ∅ |})
    as (_ & H2 & _ & H4).
  - split; [simpl; lia|reflexivity].
  - reflexivity.
  - reflexivity.
  - by split.
Defined.

End Identity.

(** ** The tests of the repository, replayed on the model *)

Section Tests.

(** TestRateLimiterConfiguration *)
Example TestRateLimiterConfiguration :
  New {| Limit := 0; LimitInterval := 0; ClientTimeout := 0 |}
    = (None, Some ErrInvalidLimit) ∧
  New {| Limit := 10; LimitInterval := 0; ClientTimeout := 0 |}
    = (None, Some ErrInvalidLimitInterval) ∧
  New {| Limit := 10; LimitInterval := time.Second; ClientTimeout := 0 |}
    = (None, Some ErrInvalidClientTimeout).
Proof. by vm_compute. Qed.

(** TestRateLimiter: six calls, the clock advanced by a second, one more
    call, the clock advanced by two minutes.  Of the ticks of the reset
    loop during the two minutes one is kept, the others do the same. *)
Example TestRateLimiter :
  let test := {| RemoteAddr := "test" |} in
  let r0 := {| limiter := {| limit := 5; activity := ∅ |};
               limitResetEvery := time.Second;
               clientCleanupEvery := time.Minute |} in
  let es := replicate 6 (EvAllow 0 test) ++
            [EvLimitReset; EvAllow time.Second test; EvLimitReset;
             EvClientCleanup time.Minute;
             EvClientCleanup (2 * time.Minute)] in
  New {| Limit := 5; LimitInterval := time.Second; ClientTimeout := time.Minute |}
    = (Some r0, None) ∧
  (run r0 es).2 = [true; true; true; true; true; false; true] ∧
  NumberOfClients (limiter (run r0 (take 10 es)).1) = 1 ∧
  NumberOfClients (limiter (run r0 es).1) = 0.
Proof. by vm_compute. Qed.

(** TestNoopLimiter *)
Example TestNoopLimiter :
  (noopRun NewNoopLimiter (replicate 1000 {| RemoteAddr := "test" |})).2
    = replicate 1000 true.
Proof. by vm_compute. Qed.

(** Remote addresses and their identities. *)
Example clientID_examples :
  clientID {| RemoteAddr := "127.0.0.1:8080" |} = "127.0.0.1"%string ∧
  clientID {| RemoteAddr := "[2001:db8::1]:443" |} = "[2001:db8::1]"%string ∧
  clientID {| RemoteAddr := "a:1:23" |} = "a:1"%string ∧
  clientID {| RemoteAddr := "test" |} = EmptyString ∧
  clientID {| RemoteAddr := "10.0.0.1:123456" |} = EmptyString ∧
  clientID {| RemoteAddr := "10.0.0.1:" |} = EmptyString ∧
  clientID {| RemoteAddr := "10.0.0.1:80a" |} = EmptyString ∧
  clientID {| RemoteAddr := ":8080" |} = EmptyString.
Proof. by vm_compute. Qed.

End Tests.

(** ** More about the limiter within an interval *)

Section Interval.

Lemma in_range_small c : 0 <= c <= GoInt.max_int → GoInt.in_range c.
Proof. unfold GoInt.in_range, GoInt.min_int, GoInt.bits. lia. Qed.

Lemma allowedBy_run start r es id :
  validated r → seenSince start (limiter r) →
  Forall (withinInterval start (limitResetEvery r)) es →
  0 <= countOf id (limiter r) →
  countOf id (limiter r) + Z.of_nat (callsBy id es) <= GoInt.max_int →
  Z.of_nat (allowedBy id r es) =
    Z.max 0 (Z.min (countOf id (limiter r) + Z.of_nat (callsBy id es))
                   (limit (limiter r))
             - countOf id (limiter r)).
Proof.
  revert r. induction es as [|e es IH]; intros r Hv Hs Hes H0 Hmax.
  - simpl. lia.
  - apply Forall_cons in Hes as [He Hes].
    assert (Hv' : validated (step r e).1).
    { unfold validated. by destruct (step_frame r e) as (-> & -> & ->). }
    assert (Hes' : Forall (withinInterval start (limitResetEvery (step r e).1)) es).
    { by destruct (step_frame r e) as (_ & -> & _). }
    pose proof (step_seenSince start r e Hs He) as Hs'.
    assert (Hl : limit (limiter (step r e).1) = limit (limiter r))
      by apply step_frame.
    change (e :: es) with ([e] ++ es) in Hmax.
    rewrite callsBy_app, Nat2Z.inj_add in Hmax.
    change (callsBy id (e :: es)) with (callsBy id ([e] ++ es)).
    rewrite callsBy_app, Nat2Z.inj_add.
    assert (Hc : countOf id (limiter (step r e).1) =
                 countOf id (limiter r) + Z.of_nat (callsBy id [e])).
    { destruct (step_countOf start r e id Hv Hs He) as [->|[-> ->] ]; [|simpl; lia].
      apply wrap_in_range, in_range_small. lia. }
    cbn [allowedBy]. rewrite Nat2Z.inj_add, IH by (try done; lia).
    rewrite Hc, Hl.
    destruct e as [now rq| |now]; [|done|cbn; lia].
    rewrite step_EvAllow. cbn [snd callsBy].
    destruct (decide (clientID rq = id)) as [<-|Hne].
    + rewrite Allow_result.
      rewrite add_one_below_max
        by (unfold GoInt.min_int, GoInt.bits; cbn [callsBy] in Hmax;
            rewrite decide_True in Hmax by done; lia).
      destruct (Z.leb_spec (countOf (clientID rq) (limiter r) + 1) (limit (limiter r)));
        simpl; lia.
    + destruct (Allow now rq (limiter r)).1; simpl; lia.
Qed.

(** X1: within one interval a client is allowed min(calls, Limit)
    times. *)
Theorem allowed_per_interval cfg r start es id :
  intervalStart cfg r →
  Forall (withinInterval start (LimitInterval cfg)) es →
  Z.of_nat (callsBy id es) <= GoInt.max_int →
  Z.of_nat (allowedBy id r es) = Z.min (Z.of_nat (callsBy id es)) (Limit cfg) ∧
  Z.of_nat (allowedBy id r es) <= Limit cfg.
Proof.
  intros Hr Hes Hn.
  destruct (intervalStart_facts _ _ Hr) as (Hv & Hz & Hl & Hp & _).
  assert (Hc : countOf id (limiter r) = 0) by by apply allZero_countOf.
  rewrite (allowedBy_run start);
    [|done|by apply allZero_seenSince|by rewrite Hp|lia|lia].
  rewrite Hc, Hl. destruct Hv as (HL & _). rewrite Hl in HL. lia.
Qed.

Lemma allowed_per_interval_witness :
  Z.of_nat (allowedBy "10.0.0.1"
              {| limiter := {| limit := 2; activity := ∅ |};
                 limitResetEvery := time.Second;
                 clientCleanupEvery := time.Minute |}
              [EvAllow 0 {| RemoteAddr := "10.0.0.1:50000" |};
               EvAllow 1 {| RemoteAddr := "10.0.0.2:50000" |};
               EvAllow 2 {| RemoteAddr := "10.0.0.1:50001" |};
               EvClientCleanup 3;
               EvAllow 4 {| RemoteAddr := "10.0.0.1:50002" |}]) <= 2.
Proof.
  apply (allowed_per_interval
           {| Limit := 2; LimitInterval := time.Second; ClientTimeout := time.Minute |}
           _ 0).
  - eexists. exists []. split; [reflexivity|]. left. reflexivity.
  - repeat constructor; vm_compute; discriminate.
  - vm_compute. discriminate.
Defined.



End Interval.

(** ** More about the limiter, whatever the timing *)

Section AnyTiming.

Lemma step_countOf_bound r e id :
  0 <= countOf id (limiter r) →
  countOf id (limiter r) + Z.of_nat (callsBy id [e]) <= GoInt.max_int →
  0 <= countOf id (limiter (step r e).1)
    <= countOf id (limiter r) + Z.of_nat (callsBy id [e]).
Proof.
  intros H0 Hmax. destruct e as [now rq| |now].
  - rewrite step_EvAllow. cbn [fst limiter callsBy] in *.
    destruct (decide (clientID rq = id)) as [<-|Hne].
    + rewrite Allow_countOf_self.
      rewrite add_one_below_max by (unfold GoInt.min_int, GoInt.bits; lia). lia.
    + rewrite Allow_countOf_other by done. simpl. lia.
  - cbn [step fst limiter callsBy]. unfold countOf at 1 2.
    rewrite limitResetTick_lookup.
    destruct (activity (limiter r) !! id); simpl; lia.
  - cbn [step fst limiter callsBy]. unfold countOf at 1 2.
    rewrite clientCleanupTick_lookup. unfold countOf in *.
    destruct (activity (limiter r) !! id) as [a|]; simpl; [|lia].
    unfold keepFresh. destruct (expired _ _ _); simpl in *; lia.
Qed.

Lemma run_countOf_bound r es id :
  0 <= countOf id (limiter r) →
  countOf id (limiter r) + Z.of_nat (callsBy id es) <= GoInt.max_int →
  0 <= countOf id (limiter (run r es).1)
    <= countOf id (limiter r) + Z.of_nat (callsBy id es).
Proof.
  revert r. induction es as [|e es IH]; intros r H0 Hmax; [simpl; lia|].
  change (e :: es) with ([e] ++ es) in *.
  rewrite callsBy_app, Nat2Z.inj_add in *.
  change ([e] ++ es) with (e :: es). rewrite run_cons. cbn [fst].
  pose proof (step_countOf_bound r e id H0 ltac:(lia)) as Hs.
  pose proof (IH (step r e).1 ltac:(lia) ltac:(lia)). lia.
Qed.

(** X3: whatever ticks and calls come in whatever order and at whatever
    times, a client is not refused before it has made Limit calls since
    the interval started. *)
Theorem no_denial_below_limit cfg r es now rq :
  intervalStart cfg r →
  Z.of_nat (callsBy (clientID rq) es) < GoInt.max_int →
  (step (run r es).1 (EvAllow now rq)).2 = Some false →
  Limit cfg <= Z.of_nat (callsBy (clientID rq) es).
Proof.
  intros Hr Hn.
  destruct (intervalStart_facts _ _ Hr) as (Hv & Hz & Hl & _).
  assert (Hc : countOf (clientID rq) (limiter r) = 0) by by apply allZero_countOf.
  pose proof (run_countOf_bound r es (clientID rq) ltac:(lia) ltac:(lia)) as Hb.
  rewrite step_EvAllow. cbn [snd]. rewrite Allow_result.
  rewrite add_one_below_max by (unfold GoInt.min_int, GoInt.bits; lia).
  destruct (run_frame r es) as (-> & _). rewrite Hl.
  intros [= Hd]. apply Z.leb_gt in Hd. lia.
Qed.

Lemma no_denial_below_limit_witness :
  2 <= Z.of_nat (callsBy (clientID {| RemoteAddr := "test" |})
                   [EvAllow 0 {| RemoteAddr := "test" |};
                    EvClientCleanup 5;
                    EvAllow (3 * time.Minute) {| RemoteAddr := "test" |};
                    EvAllow (3 * time.Minute) {| RemoteAddr := "test" |}]).
Proof.
  apply (no_denial_below_limit
           {| Limit := 2; LimitInterval := time.Second; ClientTimeout := time.Minute |}
           {| limiter := {| limit := 2; activity := ∅ |};
              limitResetEvery := time.Second;
              clientCleanupEvery := time.Minute |}
           [EvAllow 0 {| RemoteAddr := "test" |};
            EvClientCleanup 5;
            EvAllow (3 * time.Minute) {| RemoteAddr := "test" |};
            EvAllow (3 * time.Minute) {| RemoteAddr := "test" |}]
           (4 * time.Minute) {| RemoteAddr := "test" |}).
  - eexists. exists []. split; [reflexivity|]. left. reflexivity.
  - vm_compute. reflexivity.
  - vm_compute. reflexivity.
Defined.

(** X4: calls of two different clients do not see each other: either
    order leaves the same limiter, and each call returns what it returns
    without the other. *)
Theorem Allow_clients_independent now1 rq1 now2 rq2 rl :
  clientID rq1 ≠ clientID rq2 →
  (Allow now2 rq2 (Allow now1 rq1 rl).2).2 = (Allow now1 rq1 (Allow now2 rq2 rl).2).2 ∧
  (Allow now2 rq2 (Allow now1 rq1 rl).2).1 = (Allow now2 rq2 rl).1 ∧
  (Allow now1 rq1 (Allow now2 rq2 rl).2).1 = (Allow now1 rq1 rl).1.
Proof.
  intros Hne. split; [|split].
  - unfold Allow. cbn [snd limit activity].
    rewrite !lookup_insert_ne by done. f_equal. by apply insert_insert_ne.
  - rewrite !Allow_result, Allow_limit. by rewrite Allow_countOf_other.
  - rewrite !Allow_result, Allow_limit. by rewrite Allow_countOf_other.
Qed.

Lemma Allow_clients_independent_witness :
  (Allow 2 {| RemoteAddr := "10.0.0.2:80" |}
     (Allow 1 {| RemoteAddr := "10.0.0.1:80" |} {| limit := 1; activity := ∅ |}).2).1
  = (Allow 2 {| RemoteAddr := "10.0.0.2:80" |} {| limit := 1; activity := ∅ |}).1.
Proof.
  assert (Hne : clientID {| RemoteAddr := "10.0.0.1:80" |}
                ≠ clientID {| RemoteAddr := "10.0.0.2:80" |})
    by (vm_compute; discriminate).
  exact (proj1 (proj2 (Allow_clients_independent
                         1 {| RemoteAddr := "10.0.0.1:80" |}
                         2 {| RemoteAddr := "10.0.0.2:80" |}
                         {| limit := 1; activity := ∅ |} Hne))).
Defined.

(** X5: between a call of a client and the next tick of the cleanup
    loop.  When the tick is of a time less than the period after the
    call, the record the call wrote is still there, unchanged; when it
    is of a time at least the period after the call, the record is
    gone. *)
Theorem seen_client_outlives_cleanup r now rq tick :
  time.minDuration < clientCleanupEvery r <= time.maxDuration →
  let r1 := (step r (EvAllow now rq)).1 in
  let r2 := (step r1 (EvClientCleanup tick)).1 in
  (tick - now < clientCleanupEvery r →
     activity (limiter r2) !! clientID rq =
       Some {| requestCount := GoInt.add (countOf (clientID rq) (limiter r)) 1;
               lastSeen := now |}) ∧
  (clientCleanupEvery r <= tick - now →
     activity (limiter r2) !! clientID rq = None).
Proof.
  intros Hd. cbn zeta. rewrite step_EvAllow.
  cbn [step fst limiter clientCleanupEvery].
  rewrite clientCleanupTick_lookup, Allow_lookup_self. simpl.
  unfold keepFresh, expired. cbn [lastSeen].
  pose proof (Sub_ge_iff _ tick now Hd) as Hiff.
  destruct (Z.leb_spec (clientCleanupEvery r) (time.Sub tick now)); split; (done || lia).
Qed.

Lemma seen_client_outlives_cleanup_witness :
  let r := {| limiter := {| limit := 5; activity := ∅ |};
              limitResetEvery := time.Second;
              clientCleanupEvery := time.Minute |} in
  activity (limiter (step (step r (EvAllow time.Second {| RemoteAddr := "test" |})).1
                          (EvClientCleanup time.Minute)).1) !! EmptyString =
    Some {| requestCount := 1; lastSeen := time.Second |} ∧
  activity (limiter (step (step r (EvAllow time.Second {| RemoteAddr := "test" |})).1
                          (EvClientCleanup (2 * time.Minute))).1) !! EmptyString = None.
Proof.
  intros r. split.
  - apply (proj1 (seen_client_outlives_cleanup r time.Second {| RemoteAddr := "test" |}
                    time.Minute ltac:(by vm_compute))).
    vm_compute. reflexivity.
  - apply (proj2 (seen_client_outlives_cleanup r time.Second {| RemoteAddr := "test" |}
                    (2 * time.Minute) ltac:(by vm_compute))).
    vm_compute. discriminate.
Defined.

End AnyTiming.

(** ** More about the loops and the tracked clients *)

Section Tracking.

Lemma RateLimiter_eq rl1 rl2 :
  limit rl1 = limit rl2 →
  (∀ k, activity rl1 !! k = activity rl2 !! k) →
  rl1 = rl2.
Proof.
  destruct rl1 as [l1 m1], rl2 as [l2 m2]. simpl. intros -> H.
  f_equal. by apply map_eq.
Qed.

(** X6: a tick of the cleanup loop only removes records: what is left is
    part of what was there and NumberOfClients does not grow; it leaves
    no client exactly when every record had expired, and leaves
    NumberOfClients as it was exactly when none had. *)
Theorem cleanup_only_removes r now :
  let rl := limiter r in
  let rl' := limiter (step r (EvClientCleanup now)).1 in
  activity rl' ⊆ activity rl ∧
  NumberOfClients rl' <= NumberOfClients rl ∧
  (NumberOfClients rl' = 0 ↔
     ∀ id a, activity rl !! id = Some a →
       clientCleanupEvery r <= time.Sub now (lastSeen a)) ∧
  (NumberOfClients rl' = NumberOfClients rl ↔
     ∀ id a, activity rl !! id = Some a →
       time.Sub now (lastSeen a) < clientCleanupEvery r).
Proof.
  cbn zeta. cbn [step fst limiter].
  set (dur := clientCleanupEvery r). set (rl := limiter r).
  assert (Hsub : activity (clientCleanupTick dur now rl) ⊆ activity rl).
  { apply map_subseteq_spec. intros k a. rewrite clientCleanupTick_lookup.
    destruct (activity rl !! k) as [a'|]; [|done]. simpl.
    unfold keepFresh. by destruct (expired _ _ _). }
  assert (Hkeep : ∀ id a, activity rl !! id = Some a →
            activity (clientCleanupTick dur now rl) !! id =
              if dur <=? time.Sub now (lastSeen a) then None else Some a).
  { intros id a Ha. by rewrite clientCleanupTick_lookup, Ha. }
  split; [done|]. split; [|split].
  - unfold NumberOfClients. apply inj_le. by apply map_subseteq_size.
  - unfold NumberOfClients. rewrite <- Nat2Z.inj_0, Nat2Z.inj_iff, map_size_empty_iff.
    split.
    + intros He id a Ha. specialize (Hkeep id a Ha). rewrite He, lookup_empty in Hkeep.
      destruct (Z.leb_spec dur (time.Sub now (lastSeen a))); [done|discriminate].
    + intros Hall. apply map_eq. intros k. rewrite lookup_empty.
      destruct (activity rl !! k) as [a|] eqn:Ha.
      * rewrite (Hkeep k a Ha). specialize (Hall k a Ha).
        destruct (Z.leb_spec dur (time.Sub now (lastSeen a))); [done|lia].
      * by rewrite clientCleanupTick_lookup, Ha.
  - unfold NumberOfClients. rewrite Nat2Z.inj_iff. split.
    + intros Hsize id a Ha.
      assert (Heq : activity (clientCleanupTick dur now rl) = activity rl).
      { apply map_subseteq_size_eq; [done|]. by rewrite Hsize. }
      specialize (Hkeep id a Ha). rewrite Heq, Ha in Hkeep.
      destruct (Z.leb_spec dur (time.Sub now (lastSeen a))); [discriminate|done].
    + intros Hall. f_equal. apply map_eq. intros k.
      destruct (activity rl !! k) as [a|] eqn:Ha.
      * rewrite (Hkeep k a Ha). specialize (Hall k a Ha).
        destruct (Z.leb_spec dur (time.Sub now (lastSeen a))); [lia|done].
      * by rewrite clientCleanupTick_lookup, Ha.
Qed.

(** X7: the ticks compose.  A second tick of the reset loop changes
    nothing, nor does a second tick of the cleanup loop of the same
    time; and when both loops tick, the limiter is the same whichever
    runs first. *)
Theorem ticks_compose dur now rl :
  limitResetTick (limitResetTick rl) = limitResetTick rl ∧
  clientCleanupTick dur now (clientCleanupTick dur now rl) = clientCleanupTick dur now rl ∧
  limitResetTick (clientCleanupTick dur now rl) = clientCleanupTick dur now (limitResetTick rl).
Proof.
  split; [|split]; (apply RateLimiter_eq; [done|]); intros k;
    rewrite ?limitResetTick_lookup, ?clientCleanupTick_lookup, ?limitResetTick_lookup;
    destruct (activity rl !! k) as [a|]; try done; simpl;
    unfold keepFresh, expired; simpl;
    destruct (dur <=? time.Sub now (lastSeen a)) eqn:E; simpl;
    rewrite ?E; done.
Qed.

Lemma step_dom r e :
  dom (activity (limiter (step r e).1)) ⊆ dom (activity (limiter r)) ∪ callers [e] ∧
  (noCleanup [e] →
   dom (activity (limiter (step r e).1)) = dom (activity (limiter r)) ∪ callers [e]).
Proof.
  destruct e as [now rq| |now].
  - rewrite step_EvAllow. cbn [fst limiter callers]. rewrite Allow_dom.
    split; [|intros _]; set_solver.
  - cbn [step fst limiter callers]. rewrite limitResetTick_fmap, dom_fmap_L.
    split; [|intros _]; set_solver.
  - split.
    + cbn [callers]. rewrite union_empty_r_L.
      apply subseteq_dom. apply (cleanup_only_removes r now).
    + intros H. apply Forall_cons in H as [ [] _].
Qed.

Lemma callers_app es1 es2 : callers (es1 ++ es2) = callers es1 ∪ callers es2.
Proof.
  induction es1 as [|e es1 IH]; simpl; [set_solver|].
  destruct e; rewrite IH; set_solver.
Qed.

(** X8: the tracked identities are identities of clients that called.
    In a run from New every tracked identity is one of a call of the
    run; when the run has no tick of the cleanup loop they are exactly
    the identities of the calls, and NumberOfClients is their number. *)
Theorem tracked_are_callers cfg r0 es :
  New cfg = (Some r0, None) →
  dom (activity (limiter (run r0 es).1)) ⊆ callers es ∧
  (noCleanup es →
     dom (activity (limiter (run r0 es).1)) = callers es ∧
     NumberOfClients (limiter (run r0 es).1) = Z.of_nat (size (callers es))).
Proof.
  intros [Hr0 _]%New_success.
  assert (Hgen : ∀ es r,
            dom (activity (limiter (run r es).1)) ⊆ dom (activity (limiter r)) ∪ callers es ∧
            (noCleanup es →
             dom (activity (limiter (run r es).1)) = dom (activity (limiter r)) ∪ callers es)).
  { clear. induction es as [|e es IH]; intros r.
    - simpl. split; [|intros _]; set_solver.
    - rewrite run_cons. cbn [fst].
      destruct (IH (step r e).1) as [IH1 IH2]. destruct (step_dom r e) as [S1 S2].
      change (e :: es) with ([e] ++ es). rewrite callers_app. split.
      + set_solver.
      + intros [He Hes]%Forall_cons.
        rewrite IH2 by done. rewrite S2 by by apply Forall_cons.
        set_solver. }
  destruct (Hgen es r0) as [H1 H2].
  assert (Hd : dom (activity (limiter r0)) = ∅) by (rewrite Hr0; simpl; apply dom_empty_L).
  rewrite Hd in *. rewrite union_empty_l_L in *.
  split; [done|]. intros Hn. split; [by apply H2|].
  unfold NumberOfClients. by rewrite <- size_dom, H2.
Qed.

Lemma tracked_are_callers_witness :
  NumberOfClients
    (limiter (run {| limiter := {| limit := 5; activity := ∅ |};
                     limitResetEvery := time.Second;
                     clientCleanupEvery := time.Minute |}
                  [EvAllow 0 {| RemoteAddr := "10.0.0.1:50000" |};
                   EvAllow 1 {| RemoteAddr := "10.0.0.2:50000" |};
                   EvLimitReset;
                   EvAllow 2 {| RemoteAddr := "10.0.0.1:50001" |}]).1)
  = Z.of_nat (size (callers
                  [EvAllow 0 {| RemoteAddr := "10.0.0.1:50000" |};
                   EvAllow 1 {| RemoteAddr := "10.0.0.2:50000" |};
                   EvLimitReset;
                   EvAllow 2 {| RemoteAddr := "10.0.0.1:50001" |}])).
Proof.
  refine (proj2 (proj2 (tracked_are_callers
            {| Limit := 5; LimitInterval := time.Second; ClientTimeout := time.Minute |}
            _ _ eq_refl) _)).
  repeat constructor.
Defined.

Import patIP.

(** X9: nothing of a remote address but its port is dropped.  When the
    pattern matches, the address is the identity, a colon and one to
    five digits, and the identity has no line feed; so two addresses
    that match have the same identity exactly when they are the same up
    to their last colon. *)
Theorem clientID_keeps_host rq :
  MatchString (RemoteAddr rq) = true →
  (∃ p, RemoteAddr rq = clientID rq +:+ String colon p ∧ port_text p) ∧
  one_line (clientID rq) = true ∧
  (∀ rq' p', RemoteAddr rq' = clientID rq +:+ String colon p' → port_text p' →
     clientID rq' = clientID rq).
Proof.
  unfold MatchString. destruct (group1 (RemoteAddr rq)) as [g|] eqn:E; [|done].
  intros _. rewrite (clientID_match _ _ E).
  apply group1_spec in E as [Ha Hl]. split; [done|]. split; [done|].
  intros rq' p' Hrq' Hp'. apply clientID_match. rewrite Hrq'.
  by apply group1_complete.
Qed.

Lemma clientID_keeps_host_witness :
  clientID {| RemoteAddr := "10.0.0.1:443" |} = clientID {| RemoteAddr := "10.0.0.1:50000" |}.
Proof.
  refine (proj2 (proj2 (clientID_keeps_host {| RemoteAddr := "10.0.0.1:50000" |} eq_refl))
            {| RemoteAddr := "10.0.0.1:443" |} "443"%string eq_refl _).
  split; [simpl; lia|reflexivity].
Defined.

End Tracking.

(** ** The store of products *)

Section Store.

Import models.

Lemma consistent_free d : consistent d → db.products d !! db.nextID d = None.
Proof.
  intros [Hk _]. destruct (db.products d !! db.nextID d) as [p|] eqn:E; [|done].
  apply Hk in E. lia.
Qed.

(** X10: CreateProduct returns, with a nil error, a product made of the
    fields of the request, the next ID and the time of the call as both
    of its times; GetProductByID of that ID then returns this product
    and of any other ID what it returned before.  In a consistent store
    the ID was free, so no product is overwritten and there is one
    product more. *)
Theorem CreateProduct_then_get now req d :
  let d' := (db.CreateProduct now req d).1 in
  let p := {| Product.ID := db.nextID d;
              Product.Name := CreateProductRequest.Name req;
              Product.Description := CreateProductRequest.Description req;
              Product.Price := CreateProductRequest.Price req;
              Product.Category := CreateProductRequest.Category req;
              Product.InStock := CreateProductRequest.InStock req;
              Product.CreatedAt := now;
              Product.UpdatedAt := now |} in
  (db.CreateProduct now req d).2 = (Some p, None) ∧
  db.GetProductByID (db.nextID d) d' = (Some p, None) ∧
  (∀ id, id ≠ db.nextID d → db.GetProductByID id d' = db.GetProductByID id d) ∧
  (consistent d →
     db.GetProductByID (db.nextID d) d =
       (None, Some (db.errors_New "product not found")) ∧
     size (db.products d') = S (size (db.products d))).
Proof.
  cbn zeta. unfold db.CreateProduct, db.GetProductByID. cbn [fst snd db.products].
  split; [done|]. split; [by rewrite lookup_insert_eq|]. split.
  - intros id Hne. by rewrite lookup_insert_ne.
  - intros Hc. pose proof (consistent_free d Hc) as Hf. rewrite Hf.
    split; [done|]. by apply map_size_insert_None.
Qed.

Lemma applyOp_nextID d o :
  db.nextID (applyOp d o) =
    match o with
    | OpCreate _ _ => GoInt.add (db.nextID d) 1
    | _ => db.nextID d
    end.
Proof.
  destruct o as [now req|now id req|id]; simpl; [done| |].
  - unfold db.UpdateProduct. by destruct (db.products d !! id).
  - unfold db.DeleteProduct. by destruct (db.products d !! id).
Qed.

Lemma applyOp_consistent d o :
  consistent d → db.nextID d < GoInt.max_int ∨ creates [o] = O →
  consistent (applyOp d o).
Proof.
  intros [Hk Hn] Hmax. destruct o as [now req|now id req|id]; simpl.
  - destruct Hmax as [Hmax|Hmax]; [|done].
    unfold db.CreateProduct. split; cbn [db.products db.nextID].
    + rewrite add_one_below_max by (unfold GoInt.min_int, GoInt.bits; lia).
      intros k p. destruct (decide (k = db.nextID d)) as [->|Hne].
      * rewrite lookup_insert_eq. intros [= <-]. simpl. lia.
      * rewrite lookup_insert_ne by done. intros Hp. apply Hk in Hp. lia.
    + rewrite add_one_below_max by (unfold GoInt.min_int, GoInt.bits; lia). lia.
  - unfold db.UpdateProduct. destruct (db.products d !! id) as [p0|] eqn:E; [|done].
    split; cbn [fst db.products db.nextID]; [|done].
    intros k p. destruct (decide (k = id)) as [->|Hne].
    + rewrite lookup_insert_eq. intros [= <-]. apply Hk in E.
      split; [|lia]. destruct E as [<- _].
      unfold db.ifProvided. by repeat case_match.
    + rewrite lookup_insert_ne by done. apply Hk.
  - unfold db.DeleteProduct. destruct (db.products d !! id) as [p0|] eqn:E; [|done].
    split; cbn [fst db.products db.nextID]; [|done].
    intros k p Hp. apply lookup_delete_Some in Hp as [_ Hp]. by apply Hk.
Qed.

Lemma NewInMemoryDB_consistent clock : consistent (db.NewInMemoryDB clock).
Proof.
  assert (H0 : consistent {| db.products := ∅; db.nextID := 1 |}).
  { split; [|by vm_compute]. intros k p Hp. simpl in Hp. by rewrite lookup_empty in Hp. }
  unfold db.NewInMemoryDB, db.sampleProducts. cbn [foldl fst].
  repeat (apply (applyOp_consistent _ (OpCreate _ _));
          [|left; vm_compute; reflexivity]).
  exact H0.
Qed.

Lemma CreateProduct_then_get_witness :
  size (db.products
          (db.CreateProduct 7 {| CreateProductRequest.Name := "Test Product";
                                 CreateProductRequest.Description := "A test product";
                                 CreateProductRequest.Price := 0;
                                 CreateProductRequest.Category := "Test";
                                 CreateProductRequest.InStock := true |}
             (db.NewInMemoryDB (λ _, 0))).1)
  = S (size (db.products (db.NewInMemoryDB (λ _, 0)))).
Proof.
  exact (proj2 (proj2 (proj2 (proj2 (CreateProduct_then_get 7 _ (db.NewInMemoryDB (λ _, 0)))))
                  (NewInMemoryDB_consistent _))).
Defined.

(** X11: the store stays consistent, and IDs are given out one after
    the other and not again.  From a consistent store with room for the
    new IDs below the largest int, any sequence of CreateProduct,
    UpdateProduct and DeleteProduct leaves a consistent store, and the
    IDs the calls of CreateProduct return are nextID, nextID+1, ...
    whatever is updated or deleted in between. *)
Theorem ids_are_consecutive d os :
  consistent d →
  db.nextID d + Z.of_nat (creates os) <= GoInt.max_int →
  consistent (applyOps d os) ∧
  db.nextID (applyOps d os) = db.nextID d + Z.of_nat (creates os) ∧
  createdIDs d os = seqZ (db.nextID d) (Z.of_nat (creates os)).
Proof.
  revert d. induction os as [|o os IH]; intros d Hc Hmax.
  - simpl. split; [done|]. split; [lia|done].
  - assert (Hn : db.nextID (applyOp d o) = db.nextID d + Z.of_nat (creates [o])).
    { rewrite applyOp_nextID. destruct o; simpl; try lia.
      apply add_one_below_max; destruct Hc as [_ Hc];
        unfold GoInt.min_int, GoInt.bits; simpl in Hmax; lia. }
    assert (Hc' : consistent (applyOp d o)).
    { apply applyOp_consistent; [done|]. destruct o; simpl in *; [left; lia|by right..]. }
    assert (Hs : Z.of_nat (creates (o :: os)) = Z.of_nat (creates [o]) + Z.of_nat (creates os)).
    { destruct o; simpl; lia. }
    destruct (IH (applyOp d o) Hc' ltac:(lia)) as (I1 & I2 & I3).
    cbn [applyOps foldl createdIDs]. fold (applyOps (applyOp d o) os).
    split; [done|]. split; [lia|].
    rewrite I3, Hn, Hs. destruct o as [now req|now id req|id]; simpl creates.
    + cbn [db.CreateProduct snd fst Product.ID].
      rewrite (seqZ_cons (db.nextID d)) by lia.
      simpl. do 2 f_equal; lia.
    + simpl. do 2 f_equal; lia.
    + simpl. do 2 f_equal; lia.
Qed.

Lemma ids_are_consecutive_witness :
  createdIDs (db.NewInMemoryDB (λ _, 0))
    [OpCreate 1 {| CreateProductRequest.Name := "a"; CreateProductRequest.Description := "";
                   CreateProductRequest.Price := 0; CreateProductRequest.Category := "";
                   CreateProductRequest.InStock := true |};
     OpDelete 6;
     OpCreate 2 {| CreateProductRequest.Name := "b"; CreateProductRequest.Description := "";
                   CreateProductRequest.Price := 0; CreateProductRequest.Category := "";
                   CreateProductRequest.InStock := true |}]
  = seqZ 6 2.
Proof.
  refine (proj2 (proj2 (ids_are_consecutive (db.NewInMemoryDB (λ _, 0)) _
                          (NewInMemoryDB_consistent _) _))).
  vm_compute. discriminate.
Defined.

End Store.

(** ** Changing and removing products *)

Section UpdateDelete.

Import models.

(** X12: DeleteProduct of an ID that is not in the store returns the
    error "product not found" and leaves the store as it is.  Of an ID
    that is in the store it returns a nil error; afterwards
    GetProductByID and a second DeleteProduct of that ID return the
    error, every other ID gives what it gave before, there is one
    product less and nextID is unchanged, so the ID is not given out
    again. *)
Theorem DeleteProduct_removes id d :
  (db.products d !! id = None →
     db.DeleteProduct id d = (d, Some (db.errors_New "product not found"))) ∧
  (is_Some (db.products d !! id) →
     let d' := (db.DeleteProduct id d).1 in
     (db.DeleteProduct id d).2 = None ∧
     db.GetProductByID id d' = (None, Some (db.errors_New "product not found")) ∧
     db.DeleteProduct id d' = (d', Some (db.errors_New "product not found")) ∧
     (∀ id', id' ≠ id → db.GetProductByID id' d' = db.GetProductByID id' d) ∧
     S (size (db.products d')) = size (db.products d) ∧
     db.nextID d' = db.nextID d).
Proof.
  unfold db.DeleteProduct, db.GetProductByID. split.
  - by intros ->.
  - intros [p Hp]. rewrite Hp. cbn [fst snd db.products db.nextID].
    rewrite lookup_delete_eq. repeat split.
    + intros id' Hne. by rewrite lookup_delete_ne.
    + rewrite map_size_delete_Some by by rewrite Hp.
      apply Nat.succ_pred. apply map_size_ne_0_lookup_2 with id. by rewrite Hp.
Qed.

Lemma DeleteProduct_removes_witness :
  db.GetProductByID 1 (db.DeleteProduct 1 (db.NewInMemoryDB (λ _, 0))).1
    = (None, Some (db.errors_New "product not found")) ∧
  db.DeleteProduct 999 (db.NewInMemoryDB (λ _, 0))
    = (db.NewInMemoryDB (λ _, 0), Some (db.errors_New "product not found")).
Proof.
  split.
  - refine (proj1 (proj2 (proj2 (DeleteProduct_removes 1 (db.NewInMemoryDB (λ _, 0))) _))).
    vm_compute. eexists. reflexivity.
  - apply (proj1 (DeleteProduct_removes 999 (db.NewInMemoryDB (λ _, 0)))).
    vm_compute. reflexivity.
Defined.

(** X13: UpdateProduct of an ID that is not in the store returns the
    error "product not found" and leaves the store as it is.  Of an ID
    that is in the store it returns, with a nil error, the product with
    each field the request provides set to the value provided, each
    other field, the ID and CreatedAt as stored, and UpdatedAt the time
    of the call; GetProductByID then returns this product, every other
    ID gives what it gave before, and the number of products and nextID
    are unchanged. *)
Theorem UpdateProduct_changes_provided now id req d :
  (db.products d !! id = None →
     db.UpdateProduct now id req d =
       (d, (None, Some (db.errors_New "product not found")))) ∧
  (∀ p, db.products d !! id = Some p →
     let d' := (db.UpdateProduct now id req d).1 in
     let p' := {| Product.ID := Product.ID p;
                  Product.Name := default (Product.Name p) (UpdateProductRequest.Name req);
                  Product.Description :=
                    default (Product.Description p) (UpdateProductRequest.Description req);
                  Product.Price := default (Product.Price p) (UpdateProductRequest.Price req);
                  Product.Category :=
                    default (Product.Category p) (UpdateProductRequest.Category req);
                  Product.InStock :=
                    default (Product.InStock p) (UpdateProductRequest.InStock req);
                  Product.CreatedAt := Product.CreatedAt p;
                  Product.UpdatedAt := now |} in
     (db.UpdateProduct now id req d).2 = (Some p', None) ∧
     db.GetProductByID id d' = (Some p', None) ∧
     (∀ id', id' ≠ id → db.GetProductByID id' d' = db.GetProductByID id' d) ∧
     size (db.products d') = size (db.products d) ∧
     db.nextID d' = db.nextID d).
Proof.
  unfold db.UpdateProduct, db.GetProductByID. split.
  - by intros ->.
  - intros p Hp. rewrite Hp. cbn zeta. cbn [fst snd db.products db.nextID].
    rewrite lookup_insert_eq.
    assert (Hp' : db.setUpdatedAt now
              (db.ifProvided (UpdateProductRequest.InStock req) db.setInStock
                 (db.ifProvided (UpdateProductRequest.Category req) db.setCategory
                    (db.ifProvided (UpdateProductRequest.Price req) db.setPrice
                       (db.ifProvided (UpdateProductRequest.Description req) db.setDescription
                          (db.ifProvided (UpdateProductRequest.Name req) db.setName p)))))
            = {| Product.ID := Product.ID p;
                 Product.Name := default (Product.Name p) (UpdateProductRequest.Name req);
                 Product.Description :=
                   default (Product.Description p) (UpdateProductRequest.Description req);
                 Product.Price := default (Product.Price p) (UpdateProductRequest.Price req);
                 Product.Category :=
                   default (Product.Category p) (UpdateProductRequest.Category req);
                 Product.InStock :=
                   default (Product.InStock p) (UpdateProductRequest.InStock req);
                 Product.CreatedAt := Product.CreatedAt p;
                 Product.UpdatedAt := now |}).
    { destruct req as [ [n|] [de|] [pr|] [c|] [i|] ]; reflexivity. }
    rewrite Hp'. repeat split.
    + intros id' Hne. by rewrite lookup_insert_ne.
    + apply map_size_insert_Some. by rewrite Hp.
Qed.

(** The first update of the test of the store: a new name and a new
    price for product 1. *)
Lemma UpdateProduct_changes_provided_witness :
  (db.UpdateProduct 9 1
     {| UpdateProductRequest.Name := Some "Updated Laptop"%string;
        UpdateProductRequest.Description := None;
        UpdateProductRequest.Price := Some 0x40976ff5c28f5c29;
        UpdateProductRequest.Category := None;
        UpdateProductRequest.InStock := None |}
     (db.NewInMemoryDB (λ _, 0))).2
  = (Some {| Product.ID := 1;
             Product.Name := "Updated Laptop";
             Product.Description := "High-performance laptop for professional use";
             Product.Price := 0x40976ff5c28f5c29;
             Product.Category := "Electronics";
             Product.InStock := true;
             Product.CreatedAt := 0;
             Product.UpdatedAt := 9 |}, None).
Proof.
  refine (proj1 (proj2 (UpdateProduct_changes_provided 9 1 _ (db.NewInMemoryDB (λ _, 0)))
                   {| Product.ID := 1;
                      Product.Name := "Laptop";
                      Product.Description := "High-performance laptop for professional use";
                      Product.Price := 0x40944ff5c28f5c29;
                      Product.Category := "Electronics";
                      Product.InStock := true;
                      Product.CreatedAt := 0;
                      Product.UpdatedAt := 0 |} _)).
  vm_compute. reflexivity.
Defined.

End UpdateDelete.

(** ** Pages of products *)

Section Pages.

Import models.

#[local] Instance byID_total : Total db.byID.
Proof. intros p q. unfold db.byID. lia. Qed.

#[local] Instance byID_trans : Transitive db.byID.
Proof. intros p q r. unfold db.byID. lia. Qed.

Lemma allProducts_perm d : allProducts d ≡ₚ (map_to_list (db.products d)).*2.
Proof. apply merge_sort_Permutation. Qed.

Lemma allProducts_length d : length (allProducts d) = size (db.products d).
Proof.
  rewrite (Permutation_length (allProducts_perm d)).
  by rewrite length_fmap, length_map_to_list.
Qed.

Lemma allProducts_elem d p :
  p ∈ allProducts d ↔ ∃ k, db.products d !! k = Some p.
Proof.
  rewrite (allProducts_perm d), list_elem_of_fmap. split.
  - intros [ [k q] [-> H%elem_of_map_to_list] ]. by exists k.
  - intros [k H]. exists (k, p). split; [done|]. by apply elem_of_map_to_list.
Qed.

Lemma consistent_ids d :
  consistent d → Product.ID <$> (map_to_list (db.products d)).*2 = (map_to_list (db.products d)).*1.
Proof.
  intros [Hk _]. rewrite <- list_fmap_compose. apply list_fmap_ext.
  intros i [k p] Hi. simpl.
  apply list_elem_of_lookup_2, elem_of_map_to_list in Hi. by apply Hk in Hi as [-> _].
Qed.

Lemma strictly_sorted (l : list Product.t) :
  StronglySorted db.byID l → NoDup (Product.ID <$> l) →
  StronglySorted (λ p q, Product.ID p < Product.ID q) l.
Proof.
  induction 1 as [|p l Hl IH Hp]; [constructor|].
  rewrite fmap_cons. intros [Hnot Hnd]%NoDup_cons. constructor; [by apply IH|].
  apply Forall_forall. intros q Hq.
  rewrite Forall_forall in Hp. specialize (Hp q Hq). unfold db.byID in Hp.
  assert (Product.ID p ≠ Product.ID q); [|lia].
  intros Heq. apply Hnot. rewrite Heq. by apply list_elem_of_fmap_2.
Qed.

Lemma allProducts_sorted d :
  consistent d → StronglySorted (λ p q, Product.ID p < Product.ID q) (allProducts d).
Proof.
  intros Hc. apply strictly_sorted.
  - apply (StronglySorted_merge_sort _).
  - rewrite (allProducts_perm d), consistent_ids by done.
    apply NoDup_fst_map_to_list.
Qed.

(** The order of the IDs leaves one order for the products of a
    consistent store: whatever order the map is ranged over in and
    whatever way the slice is sorted, the result is [allProducts]. *)
Lemma sorted_by_ID_unique d (l : list Product.t) :
  consistent d →
  l ≡ₚ (map_to_list (db.products d)).*2 →
  StronglySorted (λ p q, Product.ID p < Product.ID q) l →
  l = allProducts d.
Proof.
  intros Hc Hp Hs.
  apply (StronglySorted_unique_strong (λ p q, Product.ID p < Product.ID q)); try done.
  - intros p q _ _ ? ?. lia.
  - by apply allProducts_sorted.
  - by rewrite Hp, (allProducts_perm d).
Qed.

Lemma sorted_take_drop {A} (R : relation A) (l : list A) n m :
  StronglySorted R l → StronglySorted R (take n (drop m l)).
Proof.
  intros Hs. rewrite <- (take_drop m l) in Hs.
  apply StronglySorted_app_1_r in Hs.
  rewrite <- (take_drop n (drop m l)) in Hs.
  by apply StronglySorted_app_1_l in Hs.
Qed.

Lemma pageUsed_pos page : 1 <= pageUsed page.
Proof. unfold pageUsed. destruct (Z.ltb_spec page 1); lia. Qed.

Lemma pageSizeUsed_pos pageSize : 1 <= pageSizeUsed pageSize.
Proof. unfold pageSizeUsed. destruct (Z.ltb_spec pageSize 1); lia. Qed.

Lemma GetProducts_formula page pageSize d :
  pageUsed page * pageSizeUsed pageSize <= GoInt.max_int →
  db.GetProducts page pageSize d =
    db.Returns (take (Z.to_nat (pageSizeUsed pageSize))
                  (drop (Z.to_nat ((pageUsed page - 1) * pageSizeUsed pageSize))
                        (allProducts d)),
                Z.of_nat (size (db.products d)), None).
Proof.
  intros Hmax. unfold db.GetProducts.
  fold (pageUsed page) (pageSizeUsed pageSize) (allProducts d).
  pose proof (pageUsed_pos page) as Hp. pose proof (pageSizeUsed_pos pageSize) as Hs.
  set (p := pageUsed page) in *. set (s := pageSizeUsed pageSize) in *.
  rewrite allProducts_length.
  assert (Hps : 0 <= (p - 1) * s ∧ (p - 1) * s + s = p * s) by nia.
  assert (Hple : p <= p * s) by nia.
  assert (Hsub : GoInt.sub p 1 = p - 1).
  { apply wrap_in_range, in_range_small. lia. }
  assert (Hmul : GoInt.mul (GoInt.sub p 1) s = (p - 1) * s).
  { rewrite Hsub. apply wrap_in_range, in_range_small. lia. }
  assert (Hadd : GoInt.add ((p - 1) * s) s = p * s).
  { unfold GoInt.add. rewrite wrap_in_range; [lia|]. apply in_range_small. lia. }
  rewrite Hmul, Hadd.
  set (total := size (db.products d)).
  destruct (Z.leb_spec (Z.of_nat total) ((p - 1) * s)) as [Hbeyond|Hin].
  - f_equal. f_equal. f_equal. symmetry.
    rewrite drop_ge; [by rewrite take_nil|]. rewrite allProducts_length. fold total. lia.
  - unfold db.slice. rewrite allProducts_length. fold total.
    destruct (Z.ltb_spec (Z.of_nat total) (p * s)) as [Hlast|Hfull].
    + rewrite (proj2 (Z.leb_le 0 ((p - 1) * s))) by lia.
      rewrite (proj2 (Z.leb_le ((p - 1) * s) (Z.of_nat total))) by lia.
      rewrite Z.leb_refl. cbn [andb]. do 3 f_equal.
      rewrite !take_ge; [done| |]; rewrite length_drop, allProducts_length; fold total; lia.
    + rewrite (proj2 (Z.leb_le 0 ((p - 1) * s))) by lia.
      rewrite (proj2 (Z.leb_le ((p - 1) * s) (p * s))) by lia.
      rewrite (proj2 (Z.leb_le (p * s) (Z.of_nat total))) by lia.
      cbn [andb]. do 4 f_equal. lia.
Qed.

(** X14: GetProducts takes a page below 1 for 1 and a page size below 1
    for 10 and, when page times page size fits an int, returns with a
    nil error the number of all products and the products from position
    (page-1) * pageSize on, pageSize of them or as many as are left, of
    the list of all products.  The products it returns are never more
    than pageSize, none when the page starts past the last product; in a
    consistent store they come by strictly increasing ID and each is
    the product stored under its ID. *)
Theorem GetProducts_page page pageSize d :
  let p := pageUsed page in
  let s := pageSizeUsed pageSize in
  p * s <= GoInt.max_int →
  db.GetProducts page pageSize d =
    db.Returns (take (Z.to_nat s) (drop (Z.to_nat ((p - 1) * s)) (allProducts d)),
                Z.of_nat (size (db.products d)), None) ∧
  Z.of_nat (length (itemsOf (db.GetProducts page pageSize d))) <= s ∧
  (Z.of_nat (size (db.products d)) <= (p - 1) * s →
     itemsOf (db.GetProducts page pageSize d) = []) ∧
  (consistent d →
     StronglySorted (λ a b, Product.ID a < Product.ID b)
       (itemsOf (db.GetProducts page pageSize d)) ∧
     ∀ q, q ∈ itemsOf (db.GetProducts page pageSize d) →
       db.products d !! Product.ID q = Some q).
Proof.
  cbn zeta. intros Hmax. rewrite GetProducts_formula by done. cbn [itemsOf].
  pose proof (pageSizeUsed_pos pageSize) as Hs.
  split; [done|]. split; [|split].
  - rewrite length_take. lia.
  - intros Hb. rewrite drop_ge; [by rewrite take_nil|].
    rewrite allProducts_length. pose proof (pageUsed_pos page). lia.
  - intros Hc. split.
    + apply sorted_take_drop. by apply allProducts_sorted.
    + intros q Hq. apply subseteq_take, subseteq_drop in Hq.
      apply allProducts_elem in Hq as [k Hk].
      destruct Hc as [Hc _]. by destruct (Hc k q Hk) as [-> _].
Qed.

(** The second page of two of the sample products. *)
Lemma GetProducts_page_witness :
  Product.Name <$> itemsOf (db.GetProducts 2 2 (db.NewInMemoryDB (λ _, 0)))
    = ["Coffee Mug"; "Desk Chair"]%string.
Proof.
  rewrite (proj1 (GetProducts_page 2 2 (db.NewInMemoryDB (λ _, 0)) ltac:(by vm_compute))).
  vm_compute. reflexivity.
Defined.

(** X15: the pages of a store cover it.  The products of pages 1 to n
    of one page size, one page after the other, are the first n *
    pageSize of the list of all products; they are all products, each
    once, as soon as n * pageSize is at least their number. *)
Theorem GetProducts_pages_cover pageSize d n :
  Z.of_nat n * pageSizeUsed pageSize <= GoInt.max_int →
  concat ((λ i, itemsOf (db.GetProducts (Z.of_nat i + 1) pageSize d)) <$> seq 0 n)
    = take (n * Z.to_nat (pageSizeUsed pageSize)) (allProducts d) ∧
  ((size (db.products d) <= n * Z.to_nat (pageSizeUsed pageSize))%nat →
   concat ((λ i, itemsOf (db.GetProducts (Z.of_nat i + 1) pageSize d)) <$> seq 0 n)
     = allProducts d).
Proof.
  intros Hmax. pose proof (pageSizeUsed_pos pageSize) as Hs.
  assert (Hcat : concat ((λ i, itemsOf (db.GetProducts (Z.of_nat i + 1) pageSize d))
                           <$> seq 0 n)
                 = take (n * Z.to_nat (pageSizeUsed pageSize)) (allProducts d)).
  { induction n as [|n IH]; [done|].
    rewrite seq_S, fmap_app, concat_app, IH by lia. simpl.
    assert (Hpu : pageUsed (Z.of_nat n + 1) = Z.of_nat n + 1).
    { unfold pageUsed. destruct (Z.ltb_spec (Z.of_nat n + 1) 1); lia. }
    rewrite GetProducts_formula by (rewrite Hpu; lia).
    cbn [itemsOf]. rewrite Hpu, app_nil_r.
    replace (Z.to_nat ((Z.of_nat n + 1 - 1) * pageSizeUsed pageSize))
      with (n * Z.to_nat (pageSizeUsed pageSize))%nat by nia.
    rewrite take_take_drop. f_equal. lia. }
  split; [done|]. intros Hall. rewrite Hcat. apply take_ge.
  by rewrite allProducts_length.
Qed.

Lemma GetProducts_pages_cover_witness :
  concat ((λ i, itemsOf (db.GetProducts (Z.of_nat i + 1) 2 (db.NewInMemoryDB (λ _, 0))))
            <$> seq 0 3)
    = allProducts (db.NewInMemoryDB (λ _, 0)).
Proof.
  refine (proj2 (GetProducts_pages_cover 2 (db.NewInMemoryDB (λ _, 0)) 3 _) _).
  - vm_compute. discriminate.
  - vm_compute. lia.
Defined.

(** X16: GetProducts panics when the product (page-1) * pageSize leaves
    the range of int and wraps around to a negative start: the start is
    below the number of products, and the slice expression has a
    negative bound. *)
Theorem GetProducts_panics_on_wrapped_start page pageSize d :
  GoInt.mul (GoInt.sub (pageUsed page) 1) (pageSizeUsed pageSize) < 0 →
  db.GetProducts page pageSize d = db.Panics.
Proof.
  intros Hneg. unfold db.GetProducts.
  fold (pageUsed page) (pageSizeUsed pageSize) (allProducts d).
  set (start := GoInt.mul (GoInt.sub (pageUsed page) 1) (pageSizeUsed pageSize)) in *.
  destruct (Z.leb_spec (Z.of_nat (length (allProducts d))) start) as [H|_]; [lia|].
  unfold db.slice. rewrite (proj2 (Z.leb_gt 0 start)) by lia. done.
Qed.

(** The largest int as the page, which is what strconv.Atoi makes of
    9223372036854775807 and of any number above it, with the page size
    10. *)
Lemma GetProducts_panics_on_wrapped_start_witness :
  db.GetProducts GoInt.max_int 10 (db.NewInMemoryDB (λ _, 0)) = db.Panics.
Proof.
  apply GetProducts_panics_on_wrapped_start. vm_compute. reflexivity.
Defined.

End Pages.

(** ** The handler of the list of products *)

Section ListHandler.

Import models.

Lemma quot_ceiling total s :
  0 <= total → 1 <= s →
  (Z.quot (total + s - 1) s - 1) * s < total <= Z.quot (total + s - 1) s * s.
Proof.
  intros Ht Hs. rewrite Z.quot_div_nonneg by lia.
  pose proof (Z.div_mod (total + s - 1) s ltac:(lia)) as Hdm.
  pose proof (Z.mod_pos_bound (total + s - 1) s ltac:(lia)) as Hm.
  nia.
Qed.

(** X17: the handler answers a request for a page of products.  It
    takes a page below 1 for 1 and a page size below 1 or above 100 for
    10; when page times page size fits an int it answers with status 200
    and a body whose Page and PageSize are the ones used, whose Data is
    what GetProducts of the store returns for them, never more than
    PageSize products, whose Total is the number of all products and
    whose TotalPages is Total / PageSize rounded up.  Data is empty
    exactly for the pages after TotalPages. *)
Theorem Handler_GetProducts_pages pageArg sizeArg store :
  let page := if pageArg <? 1 then 1 else pageArg in
  let pageSize := if (sizeArg <? 1) || (100 <? sizeArg) then 10 else sizeArg in
  let total := Z.of_nat (size (db.products store)) in
  page * pageSize <= GoInt.max_int →
  total + 100 <= GoInt.max_int →
  ∃ data totalPages,
    Handler.GetProducts pageArg sizeArg store =
      db.Returns (Handler.StatusOK,
                  Handler.Paginated
                    {| PaginatedResponse.Data := data;
                       PaginatedResponse.Page := page;
                       PaginatedResponse.PageSize := pageSize;
                       PaginatedResponse.Total := total;
                       PaginatedResponse.TotalPages := totalPages |}) ∧
    data = itemsOf (db.GetProducts page pageSize store) ∧
    1 <= page ∧ 1 <= pageSize <= 100 ∧
    Z.of_nat (length data) <= pageSize ∧
    (totalPages - 1) * pageSize < total <= totalPages * pageSize ∧
    (data = [] ↔ totalPages < page).
Proof.
  cbn zeta. intros Hmax Htot.
  set (page := if pageArg <? 1 then 1 else pageArg) in *.
  set (pageSize := if (sizeArg <? 1) || (100 <? sizeArg) then 10 else sizeArg) in *.
  set (total := Z.of_nat (size (db.products store))) in *.
  assert (Hp : 1 <= page).
  { unfold page. destruct (Z.ltb_spec pageArg 1); lia. }
  assert (Hs : 1 <= pageSize <= 100).
  { unfold pageSize. destruct (Z.ltb_spec sizeArg 1), (Z.ltb_spec 100 sizeArg); simpl; lia. }
  assert (Hpu : pageUsed page = page).
  { unfold pageUsed. destruct (Z.ltb_spec page 1); lia. }
  assert (Hsu : pageSizeUsed pageSize = pageSize).
  { unfold pageSizeUsed. destruct (Z.ltb_spec pageSize 1); lia. }
  pose proof (GetProducts_formula page pageSize store) as Hf.
  rewrite Hpu, Hsu in Hf. specialize (Hf Hmax).
  assert (Ht0 : 0 <= total) by (unfold total; lia).
  pose proof (quot_ceiling total pageSize Ht0 ltac:(lia)) as Hq.
  assert (Htp : GoInt.quot (GoInt.sub (GoInt.add total pageSize) 1) pageSize
                = Z.quot (total + pageSize - 1) pageSize).
  { unfold GoInt.quot, GoInt.sub, GoInt.add.
    rewrite (wrap_in_range (total + pageSize)) by (apply in_range_small; lia).
    rewrite (wrap_in_range (total + pageSize - 1)) by (apply in_range_small; lia).
    apply wrap_in_range, in_range_small.
    split; [apply Z.quot_pos; lia|].
    assert (Z.quot (total + pageSize - 1) pageSize * pageSize <= total + pageSize - 1); [|nia].
    rewrite Z.quot_div_nonneg by lia.
    pose proof (Z.div_mod (total + pageSize - 1) pageSize ltac:(lia)).
    pose proof (Z.mod_pos_bound (total + pageSize - 1) pageSize ltac:(lia)). nia. }
  eexists _, _. split.
  { unfold Handler.GetProducts. fold page pageSize. rewrite Hf. fold total.
    rewrite Htp. reflexivity. }
  rewrite Hf. cbn [itemsOf]. split; [done|]. split; [done|]. split; [done|].
  split; [rewrite length_take; lia|]. split; [done|].
  set (tp := Z.quot (total + pageSize - 1) pageSize) in *.
  assert (Hlen : length (drop (Z.to_nat ((page - 1) * pageSize)) (allProducts store))
                 = (Z.to_nat total - Z.to_nat ((page - 1) * pageSize))%nat).
  { rewrite length_drop, allProducts_length. unfold total. lia. }
  split.
  - intros He. apply (f_equal length) in He. rewrite length_take, Hlen in He.
    simpl in He. nia.
  - intros Hlt. apply length_zero_iff_nil. rewrite length_take, Hlen. nia.
Qed.

Lemma Handler_GetProducts_pages_witness :
  ∃ data totalPages,
    Handler.GetProducts 2 2 (db.NewInMemoryDB (λ _, 0)) =
      db.Returns (Handler.StatusOK,
                  Handler.Paginated
                    {| PaginatedResponse.Data := data;
                       PaginatedResponse.Page := 2;
                       PaginatedResponse.PageSize := 2;
                       PaginatedResponse.Total := 5;
                       PaginatedResponse.TotalPages := totalPages |}) ∧
    (totalPages - 1) * 2 < 5 <= totalPages * 2.
Proof.
  destruct (Handler_GetProducts_pages 2 2 (db.NewInMemoryDB (λ _, 0))
              ltac:(by vm_compute) ltac:(by vm_compute))
    as (data & totalPages & H1 & _ & _ & _ & _ & H6 & _).
  exists data, totalPages. split; [exact H1|exact H6].
Defined.

End ListHandler.

(** ** The store as it starts *)

Section NewStore.

Import models.

(** X18: whatever the clock reads, NewInMemoryDB returns a consistent
    store with the next ID 6 that holds the five sample products under
    the IDs 1 to 5, in the order of the list of samples, each with the
    fields of its sample. *)
Theorem NewInMemoryDB_samples clock :
  let d := db.NewInMemoryDB clock in
  consistent d ∧
  db.nextID d = 6 ∧
  size (db.products d) = 5%nat ∧
  Product.ID <$> allProducts d = [1; 2; 3; 4; 5] ∧
  (∀ i req, db.sampleProducts !! i = Some req →
     db.GetProductByID (Z.of_nat i + 1) d =
       (Some {| Product.ID := Z.of_nat i + 1;
                Product.Name := CreateProductRequest.Name req;
                Product.Description := CreateProductRequest.Description req;
                Product.Price := CreateProductRequest.Price req;
                Product.Category := CreateProductRequest.Category req;
                Product.InStock := CreateProductRequest.InStock req;
                Product.CreatedAt := clock i;
                Product.UpdatedAt := clock i |}, None)).
Proof.
  cbn zeta. split; [apply NewInMemoryDB_consistent|].
  split; [by vm_compute|]. split; [by vm_compute|]. split; [by vm_compute|].
  intros i req Hi.
  do 5 (destruct i as [|i]; [injection Hi as <-; by vm_compute|]).
  done.
Qed.

Lemma NewInMemoryDB_samples_witness :
  db.GetProductByID 3 (db.NewInMemoryDB (λ i, Z.of_nat i))
  = (Some {| Product.ID := 3;
             Product.Name := "Coffee Mug";
             Product.Description := "Ceramic coffee mug with company logo";
             Product.Price := 0x4029000000000000;
             Product.Category := "Office Supplies";
             Product.InStock := false;
             Product.CreatedAt := 2;
             Product.UpdatedAt := 2 |}, None).
Proof.
  exact (proj2 (proj2 (proj2 (proj2 (NewInMemoryDB_samples (λ i, Z.of_nat i)))))
           2%nat _ eq_refl).
Defined.

(** TestGetProducts of the store, replayed. *)
Example TestGetProducts_store :
  let d := db.NewInMemoryDB (λ _, 0) in
  length (itemsOf (db.GetProducts 1 10 d)) = 5%nat ∧
  length (itemsOf (db.GetProducts 1 2 d)) = 2%nat ∧
  length (itemsOf (db.GetProducts 2 2 d)) = 2%nat ∧
  db.GetProducts 10 10 d = db.Returns ([], 5, None) ∧
  Product.ID <$> itemsOf (db.GetProducts 0 0 d) = [1; 2; 3; 4; 5].
Proof. by vm_compute. Qed.

End NewStore.
